(** * HealWithPlaywright: the selector-healing engine

    A shallow embedding of [src/healing/aiLocator.ts] and
    [src/utils/cache.ts], and the properties of the healing cascade
    (cache, heuristic, remote suggestion) proved over it.

    Conventions of the embedding:
    - a JavaScript string is a [string] whose characters are the first 256
      UTF-16 code units (Latin-1); [toLowerCase], [trim] and the character
      classes of the regular expressions are written out for that range,
      on which they agree with JavaScript; a statement that would fail on
      code units beyond it says so in a hypothesis;
    - a JavaScript object used as a dictionary ([attribs], [process.env],
      the cache file's [Record<string, CacheEntry>]) is a [gmap] keyed by
      [string], holding its own properties; [attribs] and [process.env]
      are read under fixed names only, none of them a property of
      [Object.prototype], so that an absent key reads as [undefined]; the
      cache object is read and written under the caller's key, through
      [get_property] and [set_property], which account for the prototype;
    - the selector engine (cheerio), the file system, the clock, the
      console and the HTTP client are not code of this repository: they are
      the fields of [Cheerio] and [World] below, and every call the source
      makes to them is an explicit read or update of those. *)

From Stdlib Require Import ZArith List Ascii String Bool Lia Sorted.
From stdpp Require Import gmap strings.
Import ListNotations.

Local Open Scope Z_scope.

(** ** JavaScript strings *)

Module Js.

Definition code (c : ascii) : N := N_of_ascii c.

Definition between (lo hi : N) (c : ascii) : bool :=
  ((lo <=? code c) && (code c <=? hi))%N.

Definition is_upper (c : ascii) : bool := between 65 90 c.
Definition is_lower (c : ascii) : bool := between 97 122 c.
Definition is_digit (c : ascii) : bool := between 48 57 c.

(** [[a-zA-Z0-9]] *)
Definition is_alnum (c : ascii) : bool := is_upper c || is_lower c || is_digit c.

(** [\w], the word characters of [\b] *)
Definition is_word (c : ascii) : bool := is_alnum c || Ascii.eqb c "_"%char.

(** [\s] and the characters removed by [trim]: TAB, LF, VT, FF, CR, SP, NBSP. *)
Definition is_space (c : ascii) : bool := between 9 13 c || Ascii.eqb c " "%char || (code c =? 160)%N.

(** [String.prototype.toLowerCase] on one code unit: A-Z, and the Latin-1
    capitals U+00C0..U+00DE except the multiplication sign U+00D7. *)
Definition lower_char (c : ascii) : ascii :=
  if is_upper c || (between 192 222 c && negb (code c =? 215)%N)
  then ascii_of_N (code c + 32) else c.

Fixpoint toLowerCase (s : string) : string :=
  match s with
  | EmptyString => EmptyString
  | String c s' => String (lower_char c) (toLowerCase s')
  end.

(** [hay.includes(needle)] *)
Fixpoint includes (hay needle : string) : bool :=
  String.prefix needle hay ||
  match hay with
  | EmptyString => false
  | String _ hay' => includes hay' needle
  end.

Definition is_empty (s : string) : bool :=
  match s with EmptyString => true | _ => false end.

(** JavaScript truthiness of a string. *)
Definition truthy (s : string) : bool := negb (is_empty s).

Fixpoint drop_while (p : ascii -> bool) (s : string) : string :=
  match s with
  | EmptyString => EmptyString
  | String c s' => if p c then drop_while p s' else s
  end.

Fixpoint drop_while_end (p : ascii -> bool) (s : string) : string :=
  match s with
  | EmptyString => EmptyString
  | String c s' =>
      let r := drop_while_end p s' in
      if p c && is_empty r then EmptyString else String c r
  end.

(** [s.trim()] *)
Definition trim (s : string) : string := drop_while_end is_space (drop_while is_space s).

Definition head_is (p : ascii -> bool) (s : string) : bool :=
  match s with EmptyString => false | String c _ => p c end.

(** [s.split(/[sep]+/)]: the fields between maximal runs of separator
    characters; a run at either end leaves an empty field there. *)
Fixpoint split_runs (sep : ascii -> bool) (s : string) : list string :=
  match s with
  | EmptyString => [EmptyString]
  | String c s' =>
      let r := split_runs sep s' in
      if sep c then (if head_is sep s' then r else EmptyString :: r)
      else match r with
           | f :: fs => String c f :: fs
           | [] => [String c EmptyString]
           end
  end.

(** [s.split(c)] for a one-character separator string. *)
Fixpoint split_char (sep : ascii) (s : string) : list string :=
  match s with
  | EmptyString => [EmptyString]
  | String c s' =>
      let r := split_char sep s' in
      if Ascii.eqb c sep then EmptyString :: r
      else match r with
           | f :: fs => String c f :: fs
           | [] => [String c EmptyString]
           end
  end.

(** [s.replace(/[set]/g, by)] where the replacement is a string. *)
Fixpoint replace_chars (p : ascii -> bool) (by_ : string) (s : string) : string :=
  match s with
  | EmptyString => EmptyString
  | String c s' =>
      if p c then by_ +:+ replace_chars p by_ s' else String c (replace_chars p by_ s')
  end.

(** [s.replace(/^c+|c+$/g, '')] *)
Definition strip (c : ascii) (s : string) : string :=
  drop_while_end (Ascii.eqb c) (drop_while (Ascii.eqb c) s).

(** [s.slice(0, n)] *)
Definition slice0 (n : Z) (s : string) : string := String.substring 0 (Z.to_nat n) s.

(** [Array.from(new Set(xs))]: first occurrences, in order. *)
Fixpoint dedup_from (seen : list string) (xs : list string) : list string :=
  match xs with
  | [] => []
  | x :: xs' =>
      if existsb (String.eqb x) seen then dedup_from seen xs'
      else x :: dedup_from (x :: seen) xs'
  end.
Definition dedup (xs : list string) : list string := dedup_from [] xs.

(** [xs.sort((a, b) => rank(a) - rank(b))]: the sort is stable. *)
Fixpoint insert_by (rank : string -> Z) (x : string) (xs : list string) : list string :=
  match xs with
  | [] => [x]
  | y :: ys => if rank y <? rank x then y :: insert_by rank x ys else x :: xs
  end.
Definition sort_by (rank : string -> Z) (xs : list string) : list string :=
  fold_right (insert_by rank) [] xs.

(** What follows [w] when [s] starts with [w]. *)
Fixpoint strip_prefix (w s : string) : option string :=
  match w with
  | EmptyString => Some s
  | String a w' =>
      match s with
      | EmptyString => None
      | String b s' => if Ascii.eqb a b then strip_prefix w' s' else None
      end
  end.

Fixpoint all_chars (p : ascii -> bool) (s : string) : bool :=
  match s with
  | EmptyString => true
  | String c s' => p c && all_chars p s'
  end.

(** The line feed. *)
Definition nl : string := String "010" EmptyString.

(** The double quote character, and a text between double quotes. *)
Definition dq : string := String "034" EmptyString.
Definition quoted (s : string) : string := dq +:+ s +:+ dq.

End Js.

(** ** The regular expressions of the source

    Every pattern below is made of ASCII letters and punctuation; under the
    [i] flag such a pattern matches a text exactly when the pattern, in
    lower case, matches the lower-cased text. *)

Module Re.

(** [/^(submit|button)$/i] *)
Definition submit_or_button (s : string) : bool :=
  let l := Js.toLowerCase s in String.eqb l "submit" || String.eqb l "button".

(** [/container|wrapper/i] *)
Definition container_or_wrapper (s : string) : bool :=
  let l := Js.toLowerCase s in Js.includes l "container" || Js.includes l "wrapper".

(** [/login-container/i] *)
Definition login_container (s : string) : bool :=
  Js.includes (Js.toLowerCase s) "login-container".

(** [/^#[-a-zA-Z0-9_]+$/] *)
Definition bare_id (s : string) : bool :=
  match s with
  | String "#" r =>
      Js.truthy r && Js.all_chars (fun c => Js.is_word c || Ascii.eqb c "-"%char) r
  | _ => false
  end.

(** [/^\[data-test=/] *)
Definition data_test_head (s : string) : bool := String.prefix "[data-test=" s.

(** The delimiter class of the guard: double quote, single quote,
    hyphen, white space. *)
Definition is_delim (c : ascii) : bool :=
  Ascii.eqb c "034"%char || Ascii.eqb c "'"%char || Ascii.eqb c "-"%char || Js.is_space c.

Definition guard_words : list string := ["login-container"; "wrapper"; "container"].

(** One of the guard words at the head of [s], followed by a delimiter
    or by the end of the text. *)
Definition guard_word_here (s : string) : bool :=
  existsb (fun w => match Js.strip_prefix w s with
                    | Some rest => Js.is_empty rest || Js.head_is is_delim rest
                    | None => false
                    end) guard_words.

(** [left] tells whether the position is the start of the text or
    follows a delimiter. *)
Fixpoint guard_scan (left : bool) (s : string) : bool :=
  (left && guard_word_here s) ||
  match s with
  | EmptyString => false
  | String c s' => guard_scan (is_delim c) s'
  end.

(** The guard of [heuristicHeal]: [(^|D)(login-container|wrapper|container)(D|$)]
    under the [i] flag, with [D] the delimiter class. *)
Definition container_guard (s : string) : bool := guard_scan true (Js.toLowerCase s).

(** [prev] tells whether the previous character is a word character. *)
Fixpoint btn_scan (prev : bool) (s : string) : bool :=
  (negb prev && match Js.strip_prefix "btn" s with
                | Some rest => negb (Js.head_is Js.is_word rest)
                | None => false
                end) ||
  match s with
  | EmptyString => false
  | String c s' => btn_scan (Js.is_word c) s'
  end.

(** [/\bbtn\b/] *)
Definition word_btn (s : string) : bool := btn_scan false s.

End Re.

(** ** The DOM snapshot and the selector engine

    [load(htmlSnapshot)] gives the query function [$]. An element carries
    what the source reads from it: [el.type], [el.name], [el.attribs] and
    [$(el).text()]. A query gives the matched elements in document order,
    or throws ([None]) when the engine rejects the selector. *)

Inductive NodeType := type_tag | type_script | type_style.

Record Element := {
  el_type : NodeType;
  el_name : string;
  el_attribs : gmap string string;
  el_text : string
}.

Record Cheerio := { query : string -> option (list Element) }.

(** [attribs[k] || ''] *)
Definition attr (a : gmap string string) (k : string) : string :=
  default EmptyString (a !! k).

(** [el && el.type === 'tag'] *)
Definition is_tag (el : Element) : bool :=
  match el_type el with type_tag => true | _ => false end.

(** The callback of [arr.some] in [isClickableSelector]. *)
Definition clickable_node (el : Element) : bool :=
  let name := el_name el in
  let a := el_attribs el in
  if String.eqb name "button" then true
  else if String.eqb name "input" && Re.submit_or_button (attr a "type") then true
  else if String.eqb name "a" &&
          (String.eqb (Js.toLowerCase (attr a "role")) "button" || Re.word_btn (attr a "class"))
       then true
  else false.

Definition isClickableSelector (dom : Cheerio) (selector : string) : bool :=
  match query dom selector with
  | None => false
  | Some nodes =>
      if (length nodes =? 0)%nat then false
      else existsb clickable_node (List.filter is_tag nodes)
  end.

(** ** Heuristic logic *)

Definition rank (t : string) : Z :=
  if String.eqb t "login" then -2 else if String.eqb t "button" then -1 else 0.

(** The class of [/[#.[]=:quote]/g]: the selector syntax characters. *)
Definition is_selector_syntax (c : ascii) : bool :=
  existsb (Ascii.eqb c) ["#"; "."; "["; "]"; "="; ":"; "034"; "'"]%char.

Definition extractTokens (sel : string) : list string :=
  let raw :=
    List.filter Js.truthy
      (map (fun s => Js.toLowerCase (Js.trim s))
         (Js.split_runs (fun c => negb (Js.is_alnum c))
            (Js.replace_chars is_selector_syntax " " sel))) in
  let dedup := List.filter (fun t => (3 <=? String.length t)%nat) (Js.dedup raw) in
  Js.sort_by rank dedup.

Definition tokenMatchScore (tokens : list string) (value : string) (weightPerHit : Z) : Z :=
  if negb (Js.truthy value) then 0
  else
    let v := Js.toLowerCase value in
    fold_left (fun score t => if Js.includes v t then score + weightPerHit else score) tokens 0.

Definition containsAny (hay : string) (needles : list string) : bool :=
  existsb (Js.includes hay) needles.

Definition containsAll (hay : string) (needles : list string) : bool :=
  forallb (Js.includes hay) needles.

(** [eq(a, b)] of the source, [a] read as [a || '']. *)
Definition eq_ci (a b : string) : bool :=
  String.eqb (Js.toLowerCase a) (Js.toLowerCase b).

Definition cssEscape (s : string) : string :=
  Js.replace_chars (Ascii.eqb "034") (String "\" Js.dq) s.

(** [String(cls).trim().split(/\s+/).filter(Boolean)[0]] *)
Definition first_class (cls : string) : option string :=
  head (List.filter Js.truthy (Js.split_runs Js.is_space (Js.trim cls))).

Definition buildBestSelectorFor (el : Element) : string :=
  let attribs := el_attribs el in
  let tag := if Js.truthy (el_name el) then el_name el else "div" in
  let id := attr attribs "id" in
  if Js.truthy id && negb (Re.container_or_wrapper id) then "#" +:+ cssEscape id
  else
  let dt := attr attribs "data-test" in
  if Js.truthy dt && negb (Re.container_or_wrapper dt)
  then "[data-test=" +:+ Js.quoted (cssEscape dt) +:+ "]"
  else
  let dti := attr attribs "data-testid" in
  if Js.truthy dti then "[data-testid=" +:+ Js.quoted (cssEscape dti) +:+ "]"
  else
  if Js.truthy (attr attribs "name")
  then tag +:+ "[name=" +:+ Js.quoted (cssEscape (attr attribs "name")) +:+ "]"
  else
  if Js.truthy (attr attribs "aria-label")
  then tag +:+ "[aria-label*=" +:+ Js.quoted (cssEscape (attr attribs "aria-label")) +:+ "]"
  else
  match (if Js.truthy (attr attribs "class") then first_class (attr attribs "class") else None) with
  | Some c =>
      if Js.truthy c && negb (Re.container_or_wrapper c) then "." +:+ cssEscape c else tag
  | None => tag
  end.

(** The negative filter at the head of the scoring loop. *)
Definition looksContainer (el : Element) : bool :=
  let id := Js.toLowerCase (attr (el_attribs el) "id") in
  let cls := Js.toLowerCase (attr (el_attribs el) "class") in
  containsAny (id +:+ " " +:+ cls) ["container"; "wrapper"; "form"; "box"; "panel"; "section"].

Definition b2z (b : bool) (n : Z) : Z := if b then n else 0.

(** The score [s] of one candidate that passed the filter. *)
Definition score (tokens : list string) (el : Element) : Z :=
  let attribs := el_attribs el in
  let tag := el_name el in
  let text := Js.toLowerCase (Js.trim (el_text el)) in
  let iddt := attr attribs "id" +:+ " " +:+ attr attribs "data-test" in
  let candidateSelector := buildBestSelectorFor el in
  b2z (String.eqb tag "button") 8
  + b2z (String.eqb tag "input" && Re.submit_or_button (attr attribs "type")) 8
  + b2z (String.eqb tag "a") 3
  + b2z (eq_ci (attr attribs "data-test") "login-button") 50
  + b2z (eq_ci (attr attribs "id") "login-button") 50
  + tokenMatchScore tokens (attr attribs "id") 12
  + tokenMatchScore tokens (attr attribs "data-test") 14
  + tokenMatchScore tokens (attr attribs "data-testid") 10
  + tokenMatchScore tokens (attr attribs "name") 8
  + tokenMatchScore tokens (attr attribs "aria-label") 6
  + tokenMatchScore tokens (attr attribs "value") 4
  + tokenMatchScore tokens (attr attribs "class") 2
  + tokenMatchScore tokens text 6
  - b2z (containsAny (Js.toLowerCase (attr attribs "data-test")) ["container"; "wrapper"]) 30
  - b2z (containsAny (Js.toLowerCase (attr attribs "id")) ["container"; "wrapper"]) 30
  + b2z (containsAll (Js.toLowerCase iddt) ["login"; "button"]) 40
  + b2z (Re.bare_id candidateSelector) 8
  + b2z (Re.data_test_head candidateSelector) 6.

(** [s > bestScore], where [None] is [-Infinity]. *)
Definition beats (s : Z) (bestScore : option Z) : bool :=
  match bestScore with None => true | Some b => b <? s end.

(** The [for (const el of candidates)] loop, on the pair [(bestSel, bestScore)]. *)
Fixpoint score_loop (tokens : list string) (candidates : list Element)
    (bestSel : string) (bestScore : option Z) : string * option Z :=
  match candidates with
  | [] => (bestSel, bestScore)
  | el :: rest =>
      if looksContainer el then score_loop tokens rest bestSel bestScore
      else
        let s := score tokens el in
        if beats s bestScore
        then score_loop tokens rest (buildBestSelectorFor el) (Some s)
        else score_loop tokens rest bestSel bestScore
  end.

Definition candidate_selectors : list string :=
  [ "button";
    "input[type=" +:+ Js.quoted "submit" +:+ "]";
    "input[type=" +:+ Js.quoted "button" +:+ "]";
    "[role=" +:+ Js.quoted "button" +:+ "]";
    "a.btn";
    "a[role=" +:+ Js.quoted "button" +:+ "]" ].

(** The [forEach] that fills [candidates]; [None] when a query throws. *)
Fixpoint collect (dom : Cheerio) (sels : list string) : option (list Element) :=
  match sels with
  | [] => Some []
  | sel :: rest =>
      match query dom sel with
      | None => None
      | Some nodes =>
          match collect dom rest with
          | None => None
          | Some more => Some (List.filter is_tag nodes ++ more)
          end
      end
  end.

(** What [heuristicHeal] returns once [candidates] is filled. *)
Definition pick (tokens : list string) (candidates : list Element) : option string :=
  if (length candidates =? 0)%nat then None
  else
    let '(bestSel, _) := score_loop tokens candidates EmptyString None in
    if negb (Js.truthy bestSel) then None
    else if Re.container_guard bestSel then None
    else Some bestSel.

(** ** The healed-selector cache ([src/utils/cache.ts]) *)

Inductive Source := heuristic | ai | cache.

Record CacheEntry := { healed : string; source : Source; ts : string }.

(** The text of the cache file, up to what [readFile] observes of it:
    [raw.trim()] is empty; or [JSON.parse(raw)] is an object whose own
    properties are the entries [db] (this is the text
    [JSON.stringify(db, null, 2)] writes); or [JSON.parse(raw)] is [null];
    or [JSON.parse(raw)] throws. [readFile] returns what [JSON.parse] gives
    without looking at it. A document that parses to anything else (a
    number, a string, a boolean, an array, an object holding values that
    are not entries) is outside [CacheShape], the type [readFile] declares,
    and is not represented: the statements that depend on the shape of the
    file name the shapes they hold for. *)
Inductive FileText :=
| Blank
| Json (db : gmap string CacheEntry)
| JsonNull
| Malformed.

(** [Unreadable]: the path exists and [fs.readFileSync] throws. *)
Inductive FileState :=
| Absent
| Unreadable
| Present (raw : FileText).

(** ** The environment of one healing call *)

Inductive Diag :=
| CacheReadFailed
| CacheSaved (entries : nat)
| CacheWriteFailed
| UsingCached (selector : string)
| TryingHeuristic (failedSelector : string)
| HeuristicTokens (tokens : list string)
| HeuristicFound (selector : string)
| HeuristicNone
| FallingBackToAI (failedSelector : string)
| AIFound (selector : string)
| AIFallbackFailed
| FailedToHeal (failedSelector : string)
| RateLimited (delay attempt maxAIRetries : Z)
| AIHealingFailed.

(** The body and header of one [axios.post]. *)
Record Request := { req_model : string; req_prompt : string; req_bearer : string }.

(** What [axios.post] gives back: a response, of which the source reads
    [data.choices[0].message.content || ''], or a thrown error, of which it
    reads [response.status] ([None] when the error has no response). *)
Inductive Response :=
| Answer (content : string)
| Failure (status : option Z).

Inductive Event :=
| Log (d : Diag)
| Warn (d : Diag)
| Post (r : Request)
| Sleep (ms : Z).

Record World := {
  disk : FileState;
  disk_writable : bool;
  env : gmap string string;
  clock : string;
  remote : nat -> Response;
  trace : list Event
}.

Definition is_post (e : Event) : bool :=
  match e with Post _ => true | _ => false end.

(** The requests issued so far. *)
Definition posts (t : list Event) : nat := length (List.filter is_post t).

(** The delays slept so far, in order. *)
Definition sleeps (t : list Event) : list Z :=
  flat_map (fun e => match e with Sleep ms => [ms] | _ => [] end) t.

(** ** Computations: a state over [World], with exceptions *)

Inductive Outcome (A : Type) :=
| Returned (a : A)
| Thrown.
Arguments Returned {A} a.
Arguments Thrown {A}.

Definition M (A : Type) : Type := World -> Outcome A * World.

Definition ret {A} (a : A) : M A := fun w => (Returned a, w).

Definition bind {A B} (m : M A) (k : A -> M B) : M B :=
  fun w => match m w with
           | (Returned a, w') => k a w'
           | (Thrown, w') => (Thrown, w')
           end.

Notation "x <- m ;; k" := (bind m (fun x => k))
  (at level 100, m at next level, right associativity).
Notation "m ;;; k" := (bind m (fun _ => k))
  (at level 100, right associativity).

Definition throw {A} : M A := fun w => (Thrown, w).

(** The world after one more observable event. *)
Definition record_event (e : Event) (w : World) : World :=
  {| disk := disk w; disk_writable := disk_writable w; env := env w;
     clock := clock w; remote := remote w; trace := trace w ++ [e] |}.

Definition emit (e : Event) : M unit := fun w => (Returned tt, record_event e w).

(** The world after a run whose events are [es]. *)
Definition record_events (es : list Event) (w : World) : World :=
  {| disk := disk w; disk_writable := disk_writable w; env := env w;
     clock := clock w; remote := remote w; trace := trace w ++ es |}.

Definition console_log (d : Diag) : M unit := emit (Log d).
Definition console_warn (d : Diag) : M unit := emit (Warn d).

(** [process.env[k]] *)
Definition getenv (k : string) : M (option string) :=
  fun w => (Returned (env w !! k), w).

(** JavaScript truthiness of a value that is a string or [undefined]. *)
Definition truthy_opt (v : option string) : bool :=
  match v with Some s => Js.truthy s | None => false end.

(** [new Date().toISOString()] *)
Definition now : M string := fun w => (Returned (clock w), w).

(** [axios.post]: the n-th request ever issued receives [remote n]. *)
Definition axios_post (r : Request) : M Response :=
  fun w => let resp := remote w (posts (trace w)) in
           bind (emit (Post r)) (fun _ => ret resp) w.

Definition sleep (ms : Z) : M unit := emit (Sleep ms).

(** [fs.writeFileSync]: [false] when it throws. *)
Definition fs_writeFileSync (raw : FileText) : M bool :=
  fun w => if disk_writable w
           then (Returned true,
                 {| disk := Present raw; disk_writable := disk_writable w; env := env w;
                    clock := clock w; remote := remote w; trace := trace w |})
           else (Returned false, w).

(** What [readFile] returns: a plain object, of which [db] holds the own
    properties and whose prototype is [Object.prototype], or [null]. *)
Inductive Document :=
| JsObject (db : gmap string CacheEntry)
| JsNull.

(** [readFile]: a missing or blank file reads as [{}], as does, after a
    warning, a file whose read or parse throws; a file that parses is
    returned as parsed. *)
Definition readFile : M Document :=
  fun w =>
    match disk w with
    | Absent => ret (JsObject ∅) w
    | Unreadable => (console_warn CacheReadFailed ;;; ret (JsObject ∅)) w
    | Present raw =>
        match raw with
        | Blank => ret (JsObject ∅) w
        | Json db => ret (JsObject db) w
        | JsonNull => ret JsNull w
        | Malformed => (console_warn CacheReadFailed ;;; ret (JsObject ∅)) w
        end
    end.

Definition writeFile (obj : gmap string CacheEntry) : M unit :=
  ok <- fs_writeFileSync (Json obj) ;;
  if ok then console_log (CacheSaved (size obj))
  else console_warn CacheWriteFailed.

(** The names of the properties of [Object.prototype], which every plain
    object inherits: eleven methods and the accessor [__proto__]. *)
Definition object_prototype_names : list string :=
  ["constructor"; "__defineGetter__"; "__defineSetter__"; "hasOwnProperty";
   "__lookupGetter__"; "__lookupSetter__"; "isPrototypeOf"; "propertyIsEnumerable";
   "toString"; "valueOf"; "__proto__"; "toLocaleString"].

Definition in_object_prototype (k : string) : bool :=
  existsb (String.eqb k) object_prototype_names.

(** What [db[k]] evaluates to when it is not [undefined]: an own property
    of the object, which is an entry, or the property [name] inherited from
    [Object.prototype]: a method, or for [__proto__] the prototype itself.
    An inherited value is truthy and has no property [healed]. *)
Inductive Property :=
| Own (e : CacheEntry)
| Inherited (name : string).

(** [db[k]], read: own properties first, then the prototype; [None] is
    [undefined]. *)
Definition get_property (db : gmap string CacheEntry) (k : string) : option Property :=
  match db !! k with
  | Some e => Some (Own e)
  | None => if in_object_prototype k then Some (Inherited k) else None
  end.

(** [db[k] = e], as the own properties of [db] afterwards. The assignment
    creates or overwrites the own property [k], except that for
    [__proto__], when the object has no own property of that name, it runs
    the setter inherited from [Object.prototype]: the prototype of [db]
    becomes [e] and no own property changes. *)
Definition set_property (db : gmap string CacheEntry) (k : string) (e : CacheEntry)
  : gmap string CacheEntry :=
  match db !! k with
  | None => if String.eqb k "__proto__" then db else <[k := e]> db
  | Some _ => <[k := e]> db
  end.

(** [readFile()[broken]]; reading a property of [null] throws. *)
Definition getHealed (broken : string) : M (option Property) :=
  db <- readFile ;;
  match db with
  | JsObject db => ret (get_property db broken)
  | JsNull => throw
  end.

(** [db[broken] = { healed, source, ts }; writeFile(db)]; setting a
    property of [null] throws. *)
Definition setHealed (broken healed_ : string) (source_ : Source) : M unit :=
  db <- readFile ;;
  t <- now ;;
  match db with
  | JsObject db =>
      writeFile (set_property db broken {| healed := healed_; source := source_; ts := t |})
  | JsNull => throw
  end.

(** ** The heuristic stage *)

Definition heuristicHeal (dom : Cheerio) (failedSelector : string) : M (option string) :=
  let tokens := extractTokens failedSelector in
  console_log (HeuristicTokens tokens) ;;;
  match collect dom candidate_selectors with
  | None => throw
  | Some candidates => ret (pick tokens candidates)
  end.

(** ** AI fallback *)

Definition buildAIPrompt (failedSelector htmlSnapshot : string) : string :=
  "You are helping fix a broken CSS selector in an end-to-end test." +:+ Js.nl +:+
  "Failed selector: " +:+ failedSelector +:+ Js.nl +:+
  Js.nl +:+
  "HTML snapshot (truncated):" +:+ Js.nl +:+
  Js.slice0 12000 htmlSnapshot +:+ Js.nl +:+
  Js.nl +:+
  "Return ONLY one line: a single CSS selector that clicks the actual 'Login' button (not any container/wrapper). Prefer id or [data-test] if available.".

(** From the content of the answer to [cleaned]. *)
Definition clean (content : string) : string :=
  let raw := Js.trim content in
  let firstLine := Js.trim (hd EmptyString (Js.split_char "010" raw)) in
  Js.strip "034" (Js.strip "`" firstLine).

Record AIConfig := { cfg_model : string; cfg_maxAIRetries : Z; cfg_backoffMs : Z }.

(** The values [attempt] takes in [for (attempt = 1; attempt <= maxAIRetries; attempt++)]. *)
Definition attempts_upto (maxAIRetries : Z) : list Z :=
  map Z.of_nat (seq 1 (Z.to_nat maxAIRetries)).

Definition is_429 (status : option Z) : bool :=
  match status with Some n => n =? 429 | None => false end.

(** The request of one attempt: the prompt, the model and the bearer
    token, [key] being [process.env.OPENAI_API_KEY]. *)
Definition request_of (failedSelector htmlSnapshot : string) (cfg : AIConfig)
    (key : option string) : Request :=
  {| req_model := cfg_model cfg;
     req_prompt := buildAIPrompt failedSelector htmlSnapshot;
     req_bearer := "Bearer " +:+ default "undefined" key |}.

(** The [for] loop of [aiHeal], over the attempts still to make. *)
Fixpoint aiHeal_loop (dom : Cheerio) (failedSelector htmlSnapshot : string) (cfg : AIConfig)
    (key : option string) (attempts : list Z) (delay : Z) : M (option string) :=
  match attempts with
  | [] => ret None
  | attempt :: rest =>
      res <- axios_post (request_of failedSelector htmlSnapshot cfg key) ;;
      match res with
      | Answer content =>
          let cleaned := clean content in
          if Js.truthy cleaned && isClickableSelector dom cleaned then ret (Some cleaned)
          else if Re.login_container cleaned then ret None
          else aiHeal_loop dom failedSelector htmlSnapshot cfg key rest delay
      | Failure status =>
          if is_429 status && (attempt <? cfg_maxAIRetries cfg) then
            console_warn (RateLimited delay attempt (cfg_maxAIRetries cfg)) ;;;
            sleep delay ;;;
            aiHeal_loop dom failedSelector htmlSnapshot cfg key rest (delay * 2)
          else
            console_warn AIHealingFailed ;;;
            ret None
      end
  end.

Definition aiHeal (dom : Cheerio) (failedSelector htmlSnapshot : string) (cfg : AIConfig)
  : M (option string) :=
  key <- getenv "OPENAI_API_KEY" ;;
  aiHeal_loop dom failedSelector htmlSnapshot cfg key
    (attempts_upto (cfg_maxAIRetries cfg)) (cfg_backoffMs cfg).

(** ** The orchestrator *)

Record HealOptions := {
  preferHeuristic : option bool;
  allowAI : option bool;
  model : option string;
  maxAIRetries : option Z;
  backoffMs : option Z
}.

(** [opts = {}] *)
Definition no_options : HealOptions :=
  {| preferHeuristic := None; allowAI := None; model := None;
     maxAIRetries := None; backoffMs := None |}.

(** Stage 2; [None] lets the cascade go on. *)
Definition heuristic_stage (dom : Cheerio) (failedSelector : string) : M (option string) :=
  console_log (TryingHeuristic failedSelector) ;;;
  h <- heuristicHeal dom failedSelector ;;
  match h with
  | Some sel =>
      if Js.truthy sel && isClickableSelector dom sel then
        console_log (HeuristicFound sel) ;;;
        setHealed failedSelector sel heuristic ;;;
        ret (Some sel)
      else console_log HeuristicNone ;;; ret None
  | None => console_log HeuristicNone ;;; ret None
  end.

(** Stage 3; [None] lets the cascade go on. *)
Definition ai_stage (dom : Cheerio) (failedSelector htmlSnapshot : string) (cfg : AIConfig)
  : M (option string) :=
  console_log (FallingBackToAI failedSelector) ;;;
  a <- aiHeal dom failedSelector htmlSnapshot cfg ;;
  match a with
  | Some sel =>
      if Js.truthy sel && isClickableSelector dom sel then
        console_log (AIFound sel) ;;;
        setHealed failedSelector sel ai ;;;
        ret (Some sel)
      else console_warn AIFallbackFailed ;;; ret None
  | None => console_warn AIFallbackFailed ;;; ret None
  end.

(** Stage 1, [fromCache && isClickableSelector($, fromCache.healed)]: the
    cached selector when the test passes. An inherited property is truthy
    and its [healed] is [undefined], for which cheerio selects nothing
    (as for every falsy selector), so that the test fails. *)
Definition cached_selector (dom : Cheerio) (fromCache : option Property) : option string :=
  match fromCache with
  | Some (Own e) => if isClickableSelector dom (healed e) then Some (healed e) else None
  | Some (Inherited _) => None
  | None => None
  end.

Section Orchestrator.

(** cheerio's [load]. *)
Variable load : string -> Cheerio.

Definition healSelector (failedSelector htmlSnapshot : string) (opts : HealOptions)
  : M (option string) :=
  env_model <- getenv "OPENAI_MODEL" ;;
  let preferHeuristic_ := default true (preferHeuristic opts) in
  let allowAI_ := default true (allowAI opts) in
  let model_ :=
    default (if truthy_opt env_model then default EmptyString env_model else "gpt-4o-mini")
            (model opts) in
  let maxAIRetries_ := default 6 (maxAIRetries opts) in
  let backoffMs_ := default 500 (backoffMs opts) in
  let dom := load htmlSnapshot in
  fromCache <- getHealed failedSelector ;;
  match cached_selector dom fromCache with
  | Some sel => console_log (UsingCached sel) ;;; ret (Some sel)
  | None =>
      h <- (if preferHeuristic_ then heuristic_stage dom failedSelector else ret None) ;;
      match h with
      | Some sel => ret (Some sel)
      | None =>
          key <- getenv "OPENAI_API_KEY" ;;
          a <- (if allowAI_ && truthy_opt key
                then ai_stage dom failedSelector htmlSnapshot
                       {| cfg_model := model_; cfg_maxAIRetries := maxAIRetries_;
                          cfg_backoffMs := backoffMs_ |}
                else ret None) ;;
          match a with
          | Some sel => ret (Some sel)
          | None => console_warn (FailedToHeal failedSelector) ;;; ret None
          end
      end
  end.

End Orchestrator.

(** ** A selector engine for compound selectors

    The engine the concrete scenarios run on: a document is the list of its
    elements in document order, and a selector is an optional tag name
    followed by [#id], [.class], [[attr]] and [[attr=value]] conditions,
    the value between double quotes. Any other text is rejected, which
    [query] reports as a throw. *)

Module Engine.

Inductive Cond :=
| CId (v : string)
| CClass (v : string)
| CHas (k : string)
| CEq (k v : string).

Definition is_ident (c : ascii) : bool := Js.is_word c || Ascii.eqb c "-"%char.

(** The longest prefix of characters in [p], and the rest. *)
Fixpoint span (p : ascii -> bool) (s : string) : string * string :=
  match s with
  | EmptyString => (EmptyString, EmptyString)
  | String c s' =>
      if p c then let '(a, b) := span p s' in (String c a, b)
      else (EmptyString, s)
  end.

Fixpoint parse_conds (fuel : nat) (s : string) : option (list Cond) :=
  match fuel with
  | O => None
  | S fuel' =>
      match s with
      | EmptyString => Some []
      | String "#" r =>
          let '(v, r') := span is_ident r in
          if Js.is_empty v then None else cons (CId v) <$> parse_conds fuel' r'
      | String "." r =>
          let '(v, r') := span is_ident r in
          if Js.is_empty v then None else cons (CClass v) <$> parse_conds fuel' r'
      | String "[" r =>
          let '(k, r') := span is_ident r in
          if Js.is_empty k then None
          else match r' with
               | String "]" r'' => cons (CHas k) <$> parse_conds fuel' r''
               | String "=" (String "034" r'') =>
                   let '(v, r3) := span (fun c => negb (Ascii.eqb c "034")) r'' in
                   match r3 with
                   | String "034" (String "]" r4) => cons (CEq k v) <$> parse_conds fuel' r4
                   | _ => None
                   end
               | _ => None
               end
      | _ => None
      end
  end.

Definition parse (sel : string) : option (option string * list Cond) :=
  let '(t, r) := span is_ident sel in
  if Js.is_empty sel then None
  else conds ← parse_conds (S (String.length r)) r;
       Some (if Js.is_empty t then None else Some t, conds).

Definition holds (el : Element) (c : Cond) : bool :=
  match c with
  | CId v => bool_decide (el_attribs el !! "id" = Some v)
  | CClass v =>
      existsb (String.eqb v) (Js.split_runs Js.is_space (attr (el_attribs el) "class"))
  | CHas k => bool_decide (is_Some (el_attribs el !! k))
  | CEq k v => bool_decide (el_attribs el !! k = Some v)
  end.

Definition matches (sel : option string * list Cond) (el : Element) : bool :=
  match fst sel with
  | Some t => String.eqb (Js.toLowerCase t) (el_name el)
  | None => true
  end && forallb (holds el) (snd sel).

Definition load (doc : list Element) : Cheerio :=
  {| query := fun sel => c ← parse sel; Some (List.filter (matches c) doc) |}.

End Engine.

(** ** Scenario A: the login page *)

Module ScenarioA.

Definition login_div : Element :=
  {| el_type := type_tag; el_name := "div";
     el_attribs := {[ "class" := "login-container" ]};
     el_text := "Login" |}.

Definition login_button : Element :=
  {| el_type := type_tag; el_name := "button";
     el_attribs := {[ "id" := "login-button"; "data-test" := "login-button" ]};
     el_text := "Login" |}.

Definition document : list Element := [login_div; login_button].

Definition dom : Cheerio := Engine.load document.

Definition html : string :=
  "<div class=" +:+ Js.quoted "login-container" +:+ "><button id=" +:+ Js.quoted "login-button"
  +:+ " data-test=" +:+ Js.quoted "login-button" +:+ ">Login</button></div>".

End ScenarioA.

(** ** A button whose data-test names a wrapper *)

Module ScenarioWrapped.

Definition go_button : Element :=
  {| el_type := type_tag; el_name := "button";
     el_attribs := {[ "id" := "go"; "data-test" := "btn-wrapper" ]};
     el_text := "Go" |}.

Definition dom : Cheerio := Engine.load [go_button].

End ScenarioWrapped.

(** ** Concrete worlds for the scenarios *)

Module Worlds.

Definition no_remote : nat -> Response := fun _ => Failure None.

(** No cache file, no credential, an empty console. *)
Definition fresh : World :=
  {| disk := Absent; disk_writable := true; env := ∅;
     clock := "2025-01-01T00:00:00.000Z"; remote := no_remote; trace := [] |}.

Definition with_disk (d : FileState) (writable : bool) (w : World) : World :=
  {| disk := d; disk_writable := writable; env := env w;
     clock := clock w; remote := remote w; trace := trace w |}.

Definition with_env (e : gmap string string) (w : World) : World :=
  {| disk := disk w; disk_writable := disk_writable w; env := e;
     clock := clock w; remote := remote w; trace := trace w |}.

Definition with_remote (r : nat -> Response) (w : World) : World :=
  {| disk := disk w; disk_writable := disk_writable w; env := env w;
     clock := clock w; remote := r; trace := trace w |}.

(** A cache file that remembers the healed login button. *)
Definition remembered : CacheEntry :=
  {| healed := "#login-button"; source := heuristic; ts := "2024-12-31T00:00:00.000Z" |}.

Definition remembered_db : gmap string CacheEntry :=
  {[ "#login-button-invalid" := remembered ]}.

Definition warm : World := with_disk (Present (Json remembered_db)) true fresh.

(** A credential is configured, the switch [AI_DISABLED] is set, and the
    remote service answers with the right selector. *)
Definition ai_disabled : World :=
  with_remote (fun _ => Answer "#login-button")
    (with_env {[ "OPENAI_API_KEY" := "sk-test"; "AI_DISABLED" := "true" ]} fresh).

Definition heuristic_off : HealOptions :=
  {| preferHeuristic := Some false; allowAI := Some true; model := None;
     maxAIRetries := None; backoffMs := None |}.

(** Every request is answered with status 429. *)
Definition throttled : World :=
  with_remote (fun _ => Failure (Some 429))
    (with_env {[ "OPENAI_API_KEY" := "sk-test" ]} fresh).

(** Every request is answered with the selector of the wrapper [div]. *)
Definition unhelpful : World :=
  with_remote (fun _ => Answer "div")
    (with_env {[ "OPENAI_API_KEY" := "sk-test" ]} fresh).

Definition three_tries : AIConfig :=
  {| cfg_model := "gpt-4o-mini"; cfg_maxAIRetries := 3; cfg_backoffMs := 500 |}.

Definition two_tries : AIConfig :=
  {| cfg_model := "gpt-4o-mini"; cfg_maxAIRetries := 2; cfg_backoffMs := 500 |}.

(** The cache file cannot be read and the disk refuses writes. *)
Definition broken_disk : World := with_disk Unreadable false fresh.

(** The cache file holds the text null. *)
Definition null_file : World := with_disk (Present JsonNull) true fresh.

(** cheerio's [load] on the page of scenario A. *)
Definition load (html : string) : Cheerio := ScenarioA.dom.

End Worlds.

(** ** Vocabulary of the statements *)


(** The states of the disk on which a read finds no mapping: no file, a
    file that cannot be read, a blank file, a file that does not parse. *)
Definition degraded (d : FileState) : Prop :=
  d = Absent \/ d = Unreadable \/ d = Present Blank \/ d = Present Malformed.

(** The states of the disk on which [readFile] returns an object: the
    degraded ones, and a file that parses to an object of entries. *)
Definition mapping_file (d : FileState) : Prop :=
  degraded d \/ exists db, d = Present (Json db).

(** The diagnostics of [readFile]: a warning when the read or the parse
    throws, nothing otherwise. *)
Definition read_diagnostics (d : FileState) : list Event :=
  match d with
  | Unreadable | Present Malformed => [Warn CacheReadFailed]
  | _ => []
  end.





(** The element without its attribute [k]. *)
Definition without_attr (k : string) (el : Element) : Element :=
  {| el_type := el_type el; el_name := el_name el;
     el_attribs := delete k (el_attribs el); el_text := el_text el |}.

(** The entries a state of the disk holds: the own properties of the
    object the file parses to, none in every other state. *)
Definition stored (d : FileState) : gmap string CacheEntry :=
  match d with
  | Present (Json db) => db
  | _ => ∅
  end.

(** The events of a run of [n] attempts that are all rate-limited, from
    attempt number [first] and delay [d]: request, warning and sleep for
    each attempt but the last, then the last request and the give-up
    warning. *)
Definition rate_limited_events (r : Request) (maxAIRetries : Z) (first : nat) (d : Z) (n : nat)
  : list Event :=
  match n with
  | O => []
  | S m =>
      flat_map (fun i => [Post r;
                          Warn (RateLimited (d * 2 ^ Z.of_nat i) (Z.of_nat (first + i)) maxAIRetries);
                          Sleep (d * 2 ^ Z.of_nat i)]) (seq 0 m)
      ++ [Post r; Warn AIHealingFailed]
  end.

(** [cleaned && isClickableSelector($, cleaned)] *)
Definition usable (dom : Cheerio) (cleaned : string) : bool :=
  Js.truthy cleaned && isClickableSelector dom cleaned.

(** The responses after which the loop may go on to the next attempt: a
    rate limit, or an answer that is neither usable nor a container. *)
Definition retryable (dom : Cheerio) (res : Response) : bool :=
  match res with
  | Failure status => is_429 status
  | Answer content =>
      negb (usable dom (clean content)) && negb (Re.login_container (clean content))
  end.

(** The retry policy of one run of the loop. [res j] is the response to
    the [j]-th request of the run, [out] what the run returns and [es] its
    events. Every request but the last was answered by a retryable
    response; a failure that is not a rate limit, and an answer that is not
    usable and names the container, are each the last response of the run,
    which then returns none, the request being its last event but for the
    give-up warning. *)
Definition retry_policy (dom : Cheerio) (r : Request) (res : nat -> Response)
    (out : Outcome (option string)) (es : list Event) : Prop :=
  (forall j, (S j < posts es)%nat -> retryable dom (res j) = true)
  /\ (forall j status, (j < posts es)%nat -> res j = Failure status -> is_429 status = false ->
        S j = posts es /\ out = Returned None
        /\ exists es0, es = es0 ++ [Post r; Warn AIHealingFailed])
  /\ (forall j content, (j < posts es)%nat -> res j = Answer content ->
        usable dom (clean content) = false -> Re.login_container (clean content) = true ->
        S j = posts es /\ out = Returned None /\ exists es0, es = es0 ++ [Post r]).

(** ** Vocabulary of the further properties *)

(** The tokens of [extractTokens] before the sort: [dedup] after its
    length filter. *)
Definition unsorted_tokens (sel : string) : list string :=
  List.filter (fun t => (3 <=? String.length t)%nat)
    (Js.dedup
       (List.filter Js.truthy
          (map (fun s => Js.toLowerCase (Js.trim s))
             (Js.split_runs (fun c => negb (Js.is_alnum c))
                (Js.replace_chars is_selector_syntax " " sel))))).

(** The code units of ASCII. *)
Definition is_ascii (c : ascii) : bool := Js.between 0 127 c.

(** The characters a token is made of: a lower-case letter or a digit. *)
Definition is_token_char (c : ascii) : bool := Js.is_lower c || Js.is_digit c.

(** The tokens that the sort leaves where they are. *)
Definition is_plain (t : string) : bool := rank t =? 0.

(** Whether [s] holds a double quote that does not directly follow a
    backslash; [prev] tells whether the previous character is a backslash. *)
Fixpoint unescaped_quote (prev : bool) (s : string) : bool :=
  match s with
  | EmptyString => false
  | String c s' =>
      (Ascii.eqb c "034" && negb prev) || unescaped_quote (Ascii.eqb c "\") s'
  end.

(** [s] without each backslash that directly precedes a double quote. *)
Fixpoint unescape_quotes (s : string) : string :=
  match s with
  | EmptyString => EmptyString
  | String c s' =>
      if Ascii.eqb c "\" && Js.head_is (Ascii.eqb "034") s'
      then unescape_quotes s'
      else String c (unescape_quotes s')
  end.

(** The number of double quotes in [s]. *)
Fixpoint count_quotes (s : string) : nat :=
  match s with
  | EmptyString => 0
  | String c s' => ((if Ascii.eqb c "034" then 1 else 0) + count_quotes s')%nat
  end.

(** The selectors [buildBestSelectorFor] synthesizes from an attribute the
    source does not screen for container or wrapper markers, or from the
    tag name alone. *)
Definition unscreened_selector (el : Element) (sel : string) : Prop :=
  let attribs := el_attribs el in
  let tag := if Js.truthy (el_name el) then el_name el else "div" in
  sel = "[data-testid=" +:+ Js.quoted (cssEscape (attr attribs "data-testid")) +:+ "]"
  \/ sel = tag +:+ "[name=" +:+ Js.quoted (cssEscape (attr attribs "name")) +:+ "]"
  \/ sel = tag +:+ "[aria-label*=" +:+ Js.quoted (cssEscape (attr attribs "aria-label")) +:+ "]"
  \/ sel = tag.

(** A character that is neither a double quote nor a backslash. *)
Definition is_plain_char (c : ascii) : bool :=
  negb (Ascii.eqb c "034") && negb (Ascii.eqb c "\").

(** Whether the last character of [s] satisfies [p]. *)
Fixpoint last_is (p : ascii -> bool) (s : string) : bool :=
  match s with
  | EmptyString => false
  | String c s' => if Js.is_empty s' then p c else last_is p s'
  end.

(** More elements and pages for the examples. *)
Module Samples.

(** A button that only a data-testid naming a container tells apart. *)
Definition testid_button : Element :=
  {| el_type := type_tag; el_name := "button";
     el_attribs := {[ "data-testid" := "main-container" ]};
     el_text := "Go" |}.

(** A retry limit of zero. *)
Definition no_tries : AIConfig :=
  {| cfg_model := "gpt-4o-mini"; cfg_maxAIRetries := 0; cfg_backoffMs := 500 |}.

(** The service is rate-limited once, then gives a wrong answer, then the
    right one. *)
Definition third_time_lucky : World :=
  Worlds.with_remote
    (fun n => match n with
              | O => Failure (Some 429)
              | S O => Answer "div"
              | _ => Answer "#login-button"
              end)
    (Worlds.with_env {[ "OPENAI_API_KEY" := "sk-test" ]} Worlds.fresh).

End Samples.

(** The delays of [n] successive sleeps from the delay [d]: each twice the
    one before. *)
Definition doubling (d : Z) (n : nat) : list Z :=
  map (fun i => d * 2 ^ Z.of_nat i) (seq 0 n).

(** Whether the file parses to [null]. *)
Definition is_null (d : FileState) : bool :=
  match d with Present JsonNull => true | _ => false end.

(** The entry [setHealed] builds. *)
Definition new_entry (sel : string) (origin : Source) (w : World) : CacheEntry :=
  {| healed := sel; source := origin; ts := clock w |}.

(** The object [setHealed] hands to [writeFile], and so the file it leaves
    on a disk that accepts the write. *)
Definition written (broken sel : string) (origin : Source) (w : World) : gmap string CacheEntry :=
  set_property (stored (disk w)) broken (new_entry sel origin w).

(** The world after [setHealed] on a file that does not parse to [null]:
    the diagnostics of the read, then the new file and the log line, or the
    warning of the refused write. *)
Definition after_setHealed (broken sel : string) (origin : Source) (w : World) : World :=
  let w1 := record_events (read_diagnostics (disk w)) w in
  if disk_writable w
  then record_event (Log (CacheSaved (size (written broken sel origin w))))
         (Worlds.with_disk (Present (Json (written broken sel origin w))) true w1)
  else record_event (Warn CacheWriteFailed) w1.

(** What an entry says apart from its timestamp. *)
Definition entry_core (e : CacheEntry) : string * Source := (healed e, source e).

(** The configuration [healSelector] hands to [aiHeal]: the options, or
    their defaults. *)
Definition effective_config (opts : HealOptions) (w : World) : AIConfig :=
  {| cfg_model :=
       default (if truthy_opt (env w !! "OPENAI_MODEL")
                then default EmptyString (env w !! "OPENAI_MODEL") else "gpt-4o-mini")
               (model opts);
     cfg_maxAIRetries := default 6 (maxAIRetries opts);
     cfg_backoffMs := default 500 (backoffMs opts) |}.

(** [allowAI && process.env.OPENAI_API_KEY] *)
Definition ai_enabled (opts : HealOptions) (w : World) : bool :=
  default true (allowAI opts) && truthy_opt (env w !! "OPENAI_API_KEY").

(** The world when the heuristic stage has logged its start and its
    tokens. *)
Definition heuristic_started (failed : string) (w : World) : World :=
  record_events [Log (TryingHeuristic failed); Log (HeuristicTokens (extractTokens failed))] w.

(** What the heuristic stage proposes: the pick among the candidates, when
    it is not empty and is clickable. *)
Definition heuristic_proposal (dom : Cheerio) (failed : string) : option string :=
  match collect dom candidate_selectors with
  | Some candidates =>
      match pick (extractTokens failed) candidates with
      | Some sel => if usable dom sel then Some sel else None
      | None => None
      end
  | None => None
  end.

(** The parts of the world no function of the engine changes: the
    environment, the clock, the remote service and whether the disk accepts
    writes. *)
Definition same_setting (w w' : World) : Prop :=
  env w' = env w /\ clock w' = clock w /\ remote w' = remote w
  /\ disk_writable w' = disk_writable w.

(** The file after a healing that wrote [sel] with [origin], on a disk that
    accepts the write or not. *)
Definition disk_after_write (failed sel : string) (origin : Source) (w : World) : FileState :=
  if disk_writable w then Present (Json (written failed sel origin w)) else disk w.

(** * Properties *)

(** ** The clickability gate *)

Lemma heuristic_stage_sound dom failed w sel w' :
  heuristic_stage dom failed w = (Returned (Some sel), w') ->
  isClickableSelector dom sel = true.
Proof.
  unfold heuristic_stage, bind. intros H.
  destruct (console_log _ w) as [[[]|] w1]; [|discriminate].
  destruct (heuristicHeal dom failed w1) as [[[h|]|] w2]; try discriminate.
  destruct (Js.truthy h && isClickableSelector dom h) eqn:Hok; try discriminate.
  apply andb_prop in Hok as [_ Hc]. unfold ret in H.
  repeat case_match; simplify_eq; done.
Qed.

Lemma ai_stage_sound dom failed html cfg w sel w' :
  ai_stage dom failed html cfg w = (Returned (Some sel), w') ->
  isClickableSelector dom sel = true.
Proof.
  unfold ai_stage, bind. intros H.
  destruct (console_log _ w) as [[[]|] w1]; [|discriminate].
  destruct (aiHeal dom failed html cfg w1) as [[[a|]|] w2]; try discriminate.
  destruct (Js.truthy a && isClickableSelector dom a) eqn:Hok; try discriminate.
  apply andb_prop in Hok as [_ Hc]. unfold ret in H.
  repeat case_match; simplify_eq; done.
Qed.

(** C1. Whatever the broken locator, the snapshot and the options, a
    selector that [healSelector] returns satisfies [isClickableSelector]
    against the snapshot of that call, from whichever stage it came. *)
Theorem healSelector_result_clickable load failed html opts w sel w' :
  healSelector load failed html opts w = (Returned (Some sel), w') ->
  isClickableSelector (load html) sel = true.
Proof.
  unfold healSelector. unfold bind at 1. cbn [getenv].
  unfold bind at 1.
  destruct (getHealed failed w) as [[fromCache|] w1]; [|discriminate].
  destruct (cached_selector (load html) fromCache) as [c|] eqn:Hc.
  - intros H. unfold bind, console_log, emit, ret in H. simplify_eq.
    destruct fromCache as [[e|name]|]; try discriminate. cbn in Hc.
    destruct (isClickableSelector (load html) (healed e)) eqn:He; simplify_eq. done.
  - unfold bind at 1.
    destruct (default true (preferHeuristic opts)).
    + destruct (heuristic_stage (load html) failed w1) as [[[h|]|] w2] eqn:Hh.
      * intros H. unfold ret in H. simplify_eq. eauto using heuristic_stage_sound.
      * unfold bind at 1. cbn [getenv]. unfold bind at 1.
        match goal with |- context [if ?b then _ else _] => destruct b end.
        -- destruct (ai_stage _ _ _ _ w2) as [[[a|]|] w3] eqn:Ha; intros H.
           ++ unfold ret in H. simplify_eq. eauto using ai_stage_sound.
           ++ unfold bind, console_warn, emit, ret in H. simplify_eq.
           ++ discriminate.
        -- intros H. unfold bind, console_warn, emit, ret in H. simplify_eq.
      * discriminate.
    + unfold ret at 1. unfold bind at 1. cbn [getenv]. unfold bind at 1.
      match goal with |- context [if ?b then _ else _] => destruct b end.
      * destruct (ai_stage _ _ _ _ w1) as [[[a|]|] w3] eqn:Ha; intros H.
        -- unfold ret in H. simplify_eq. eauto using ai_stage_sound.
        -- unfold bind, console_warn, emit, ret in H. simplify_eq.
        -- discriminate.
      * intros H. unfold bind, console_warn, emit, ret in H. simplify_eq.
Qed.

Lemma healSelector_result_clickable_witness :
  healSelector Worlds.load "#login-button-invalid" ScenarioA.html no_options Worlds.fresh
  = (Returned (Some "#login-button"),
     snd (healSelector Worlds.load "#login-button-invalid" ScenarioA.html no_options Worlds.fresh))
  /\ isClickableSelector (Worlds.load ScenarioA.html) "#login-button" = true.
Proof.
  assert (H : healSelector Worlds.load "#login-button-invalid" ScenarioA.html no_options Worlds.fresh
              = (Returned (Some "#login-button"),
                 snd (healSelector Worlds.load "#login-button-invalid" ScenarioA.html
                        no_options Worlds.fresh)))
    by (vm_compute; reflexivity).
  split; [exact H|].
  exact (healSelector_result_clickable _ _ _ _ _ _ _ H).
Defined.

(** ** The cache *)

Lemma readFile_json w db :
  disk w = Present (Json db) -> readFile w = (Returned (JsObject db), w).
Proof. intros H. unfold readFile. rewrite H. reflexivity. Qed.

Lemma get_property_own db k e : db !! k = Some e -> get_property db k = Some (Own e).
Proof. unfold get_property. by intros ->. Qed.

Lemma set_property_ne db k e k' : k' <> k -> set_property db k e !! k' = db !! k'.
Proof.
  intros Hk. unfold set_property.
  destruct (db !! k); [|destruct (String.eqb k "__proto__")];
    by rewrite ?lookup_insert_ne.
Qed.

Lemma set_property_insert db k e :
  k <> "__proto__" -> set_property db k e = <[k := e]> db.
Proof.
  intros Hk. unfold set_property. destruct (db !! k); [done|].
  by destruct (String.eqb_spec k "__proto__").
Qed.

(** C2. When the cache file holds an entry for the broken locator whose
    selector is clickable in the current snapshot, [healSelector] returns
    that selector at once: the file is left as it was, no request was
    posted, and the only event of the call is the cache-hit log line,
    whereas a heuristic pass logs its tokens and a cache write logs its
    outcome. *)
Theorem cache_hit_returns_immediately load failed html opts w db e :
  disk w = Present (Json db) ->
  db !! failed = Some e ->
  isClickableSelector (load html) (healed e) = true ->
  exists w',
    healSelector load failed html opts w = (Returned (Some (healed e)), w')
    /\ disk w' = disk w
    /\ trace w' = trace w ++ [Log (UsingCached (healed e))]
    /\ posts (trace w') = posts (trace w).
Proof.
  intros Hdisk Hentry Hclick.
  exists (record_event (Log (UsingCached (healed e))) w).
  split; [|split; [reflexivity|split; [reflexivity|]]].
  2: { unfold posts. cbn [record_event trace]. rewrite List.filter_app, length_app.
       cbn. lia. }
  unfold healSelector, bind, getenv, getHealed, bind, ret.
  rewrite (readFile_json _ _ Hdisk), (get_property_own _ _ _ Hentry). cbn [cached_selector].
  rewrite Hclick. reflexivity.
Qed.

Lemma cache_hit_returns_immediately_witness :
  exists w',
    healSelector Worlds.load "#login-button-invalid" ScenarioA.html no_options Worlds.warm
    = (Returned (Some (healed Worlds.remembered)), w')
    /\ disk w' = disk Worlds.warm
    /\ trace w' = trace Worlds.warm ++ [Log (UsingCached (healed Worlds.remembered))]
    /\ posts (trace w') = posts (trace Worlds.warm).
Proof.
  apply (cache_hit_returns_immediately Worlds.load "#login-button-invalid" ScenarioA.html
           no_options Worlds.warm Worlds.remembered_db Worlds.remembered).
  - reflexivity.
  - vm_compute; reflexivity.
  - vm_compute; reflexivity.
Defined.

Lemma readFile_mapping w :
  mapping_file (disk w) ->
  exists w0,
    readFile w = (Returned (JsObject (stored (disk w))), w0)
    /\ (w0 = w \/ w0 = record_event (Warn CacheReadFailed) w).
Proof.
  unfold readFile. intros [[H|[H|[H|H]]]|[db H]]; rewrite H; cbn; eauto.
Qed.

Lemma setHealed_writable broken sel origin w :
  mapping_file (disk w) ->
  disk_writable w = true ->
  exists w1,
    setHealed broken sel origin w = (Returned tt, w1)
    /\ disk w1 = Present (Json (set_property (stored (disk w)) broken
                                  {| healed := sel; source := origin; ts := clock w |}))
    /\ disk_writable w1 = true.
Proof.
  intros Hm Hw. unfold setHealed. unfold bind at 1.
  destruct (readFile_mapping w Hm) as (w0 & -> & [-> | ->]);
    unfold bind, now, writeFile, bind, fs_writeFileSync; cbn; rewrite Hw; cbn; eauto.
Qed.

(** C9. The round trip fails for the broken locator [__proto__]. On an
    empty cache and a disk that accepts the write, [setHealed] under that
    key returns after logging that it saved no entry, and leaves a file
    that holds the empty object: the assignment set the prototype of the
    object it was about to write, not a property. [getHealed] of the same
    key then returns what every object inherits under that name, the
    prototype of objects, which has neither the selector nor the origin
    that were written. *)
Theorem proto_key_is_not_stored :
  exists w1,
    setHealed "__proto__" "#login-button" heuristic Worlds.fresh = (Returned tt, w1)
    /\ disk w1 = Present (Json ∅)
    /\ trace w1 = [Log (CacheSaved 0)]
    /\ getHealed "__proto__" w1 = (Returned (Some (Inherited "__proto__")), w1).
Proof. eexists. repeat split; vm_compute; reflexivity. Qed.

(** C10. On a readable, well-formed cache file, [setHealed broken] leaves
    a file in which every entry under another key is the entry that was
    there before, whether or not the disk accepted the write. *)
Theorem setHealed_preserves_other_keys broken sel origin w db :
  disk w = Present (Json db) ->
  exists w1 db1,
    setHealed broken sel origin w = (Returned tt, w1)
    /\ disk w1 = Present (Json db1)
    /\ forall k, k <> broken -> db1 !! k = db !! k.
Proof.
  intros Hdisk. destruct (disk_writable w) eqn:Hw.
  - destruct (setHealed_writable broken sel origin w) as (w1 & Hset & Hdisk1 & _);
      [right; by exists db|done|].
    rewrite Hdisk in Hdisk1. cbn in Hdisk1.
    eexists _, _. split; [exact Hset|]. split; [exact Hdisk1|].
    intros k Hk. by apply set_property_ne.
  - unfold setHealed, bind. rewrite (readFile_json _ _ Hdisk).
    unfold now, writeFile, bind, fs_writeFileSync. rewrite Hw.
    eexists _, db. split; [reflexivity|]. split; [exact Hdisk|done].
Qed.

Lemma setHealed_preserves_other_keys_witness :
  exists w1 db1,
    setHealed "#submit" "#login-button" heuristic Worlds.warm = (Returned tt, w1)
    /\ disk w1 = Present (Json db1)
    /\ forall k, k <> "#submit" -> db1 !! k = Worlds.remembered_db !! k.
Proof.
  apply (setHealed_preserves_other_keys "#submit" "#login-button" heuristic Worlds.warm
           Worlds.remembered_db); reflexivity.
Defined.

(** ** Scenario A *)

Lemma scenario_A_candidates :
  collect ScenarioA.dom candidate_selectors = Some [ScenarioA.login_button].
Proof. vm_compute. reflexivity. Qed.

Lemma scenario_A_tokens :
  extractTokens "#login-button-invalid" = ["login"; "button"; "invalid"].
Proof. vm_compute. reflexivity. Qed.

Lemma scenario_A_score :
  score (extractTokens "#login-button-invalid") ScenarioA.login_button = 214.
Proof. vm_compute. reflexivity. Qed.

(** C6. For the broken locator [#login-button-invalid] and the snapshot
    made of a [div] of class [login-container] around a [button] with id
    and data-test [login-button] and text Login, the heuristic stage
    returns [#login-button]. *)
Theorem scenario_A_heuristic w :
  heuristicHeal ScenarioA.dom "#login-button-invalid" w
  = (Returned (Some "#login-button"),
     record_event (Log (HeuristicTokens ["login"; "button"; "invalid"])) w).
Proof.
  unfold heuristicHeal, bind, console_log, emit.
  rewrite scenario_A_candidates, scenario_A_tokens. unfold ret.
  f_equal.
Qed.

(** ** The switch [AI_DISABLED] *)

(** C7. The orchestrator does not read the switch: with [AI_DISABLED] set
    to [true] in the environment, a credential configured and [allowAI]
    on, a healing call whose heuristic stage is off still sends a request
    to the remote service and returns its answer. *)
Theorem ai_disabled_switch_ignored :
  env Worlds.ai_disabled !! "AI_DISABLED" = Some "true"
  /\ fst (healSelector Worlds.load "#login-button-invalid" ScenarioA.html
            Worlds.heuristic_off Worlds.ai_disabled)
     = Returned (Some "#login-button")
  /\ posts (trace (snd (healSelector Worlds.load "#login-button-invalid" ScenarioA.html
                          Worlds.heuristic_off Worlds.ai_disabled))) = 1%nat.
Proof. vm_compute. repeat split; reflexivity. Qed.

(** ** The retry loop *)

Lemma record_event_events e w : record_event e w = record_events [e] w.
Proof. reflexivity. Qed.

Lemma record_events_app es1 es2 w :
  record_events es2 (record_events es1 w) = record_events (es1 ++ es2) w.
Proof. unfold record_events; cbn. by rewrite app_assoc. Qed.

Lemma posts_app t1 t2 : posts (t1 ++ t2) = (posts t1 + posts t2)%nat.
Proof. unfold posts. by rewrite List.filter_app, length_app. Qed.

Lemma sleeps_app t1 t2 : sleeps (t1 ++ t2) = sleeps t1 ++ sleeps t2.
Proof. unfold sleeps. apply flat_map_app. Qed.

Lemma flat_map_seq_shift {A} (f : nat -> list A) s m :
  flat_map f (seq (S s) m) = flat_map (fun i => f (S i)) (seq s m).
Proof.
  revert s. induction m as [|m IH]; intros s; [reflexivity|].
  cbn [seq flat_map]. by rewrite IH.
Qed.

Lemma aiHeal_loop_rate_limited dom failed html cfg key :
  forall k a d w,
    (forall n, remote w n = Failure (Some 429)) ->
    Z.of_nat (a + k) = cfg_maxAIRetries cfg + 1 ->
    aiHeal_loop dom failed html cfg key (map Z.of_nat (seq a k)) d w
    = (Returned None,
       record_events (rate_limited_events (request_of failed html cfg key)
                        (cfg_maxAIRetries cfg) a d k) w).
Proof.
  induction k as [|k IH]; intros a d w Hremote Hlast.
  - cbn. unfold ret, record_events. destruct w; cbn. by rewrite app_nil_r.
  - cbn [seq map aiHeal_loop]. unfold bind at 1. unfold axios_post.
    rewrite Hremote. unfold bind at 1. unfold emit, ret. cbn [is_429].
    rewrite Z.eqb_refl. cbn [andb].
    destruct k as [|k].
    + assert ((Z.of_nat a <? cfg_maxAIRetries cfg) = false) as -> by (apply Z.ltb_ge; lia).
      unfold bind, console_warn, emit, ret.
      rewrite !record_event_events, record_events_app. reflexivity.
    + assert ((Z.of_nat a <? cfg_maxAIRetries cfg) = true) as -> by (apply Z.ltb_lt; lia).
      unfold bind at 1. unfold console_warn, emit.
      unfold bind at 1. unfold sleep, emit.
      rewrite IH; [|done|lia].
      rewrite !record_event_events, !record_events_app. do 2 f_equal.
      cbn [rate_limited_events seq flat_map].
      rewrite flat_map_seq_shift.
      cbn [app]. rewrite Z.pow_0_r, Z.mul_1_r, Nat.add_0_r. do 3 f_equal.
      f_equal. apply flat_map_ext. intros i.
      replace (Z.of_nat (S i)) with (Z.succ (Z.of_nat i)) by lia.
      rewrite Z.pow_succ_r by lia.
      replace (a + S i)%nat with (S a + i)%nat by lia.
      replace (d * (2 * 2 ^ Z.of_nat i)) with (d * 2 * 2 ^ Z.of_nat i) by lia.
      reflexivity.
Qed.

Lemma posts_rate_limited r mx a d n : posts (rate_limited_events r mx a d n) = n.
Proof.
  destruct n as [|m]; [reflexivity|]. unfold rate_limited_events.
  rewrite posts_app. change (posts [Post r; Warn AIHealingFailed]) with 1%nat.
  enough (forall s, posts (flat_map (fun i =>
            [Post r; Warn (RateLimited (d * 2 ^ Z.of_nat i) (Z.of_nat (a + i)) mx);
             Sleep (d * 2 ^ Z.of_nat i)]) (seq s m)) = m) as -> by lia.
  induction m as [|m IH]; intros s; [reflexivity|].
  cbn [seq flat_map]. rewrite posts_app, IH. reflexivity.
Qed.

Lemma sleeps_rate_limited r mx a d n :
  sleeps (rate_limited_events r mx a d n)
  = map (fun i => d * 2 ^ Z.of_nat i) (seq 0 (n - 1)).
Proof.
  destruct n as [|m]; [reflexivity|]. unfold rate_limited_events.
  rewrite sleeps_app. cbn [sleeps flat_map app]. rewrite app_nil_r.
  replace (S m - 1)%nat with m by lia.
  generalize 0%nat. induction m as [|m IH]; intros s; [reflexivity|].
  cbn [seq flat_map map]. fold sleeps in *. rewrite sleeps_app, IH. reflexivity.
Qed.

(** C3. When every request is answered with status 429, [aiHeal] returns
    none after exactly [maxAIRetries] requests; between consecutive
    requests it sleeps, first for [backoffMs] and then for twice the
    previous delay each time, and it does not sleep after the last
    request. *)
Theorem all_rate_limited_run dom failed html cfg w :
  0 <= cfg_maxAIRetries cfg ->
  (forall n, remote w n = Failure (Some 429)) ->
  exists w' es,
    aiHeal dom failed html cfg w = (Returned None, w')
    /\ trace w' = trace w ++ es
    /\ Z.of_nat (posts es) = cfg_maxAIRetries cfg
    /\ sleeps es = map (fun i => cfg_backoffMs cfg * 2 ^ Z.of_nat i)
                      (seq 0 (Z.to_nat (cfg_maxAIRetries cfg) - 1))
    /\ es = rate_limited_events (request_of failed html cfg (env w !! "OPENAI_API_KEY"))
              (cfg_maxAIRetries cfg) 1 (cfg_backoffMs cfg) (Z.to_nat (cfg_maxAIRetries cfg)).
Proof.
  intros Hmax Hremote.
  eexists _, _. unfold aiHeal, bind, getenv, attempts_upto.
  rewrite aiHeal_loop_rate_limited by (done || lia).
  split; [reflexivity|]. split; [reflexivity|].
  rewrite posts_rate_limited, sleeps_rate_limited.
  split; [lia|]. split; reflexivity.
Qed.

Lemma all_rate_limited_run_witness :
  exists w' es,
    aiHeal ScenarioA.dom "#login-button-invalid" ScenarioA.html Worlds.three_tries Worlds.throttled
    = (Returned None, w')
    /\ trace w' = trace Worlds.throttled ++ es
    /\ Z.of_nat (posts es) = cfg_maxAIRetries Worlds.three_tries
    /\ sleeps es = map (fun i => cfg_backoffMs Worlds.three_tries * 2 ^ Z.of_nat i)
                      (seq 0 (Z.to_nat (cfg_maxAIRetries Worlds.three_tries) - 1))
    /\ es = rate_limited_events
              (request_of "#login-button-invalid" ScenarioA.html Worlds.three_tries
                 (env Worlds.throttled !! "OPENAI_API_KEY"))
              (cfg_maxAIRetries Worlds.three_tries) 1 (cfg_backoffMs Worlds.three_tries)
              (Z.to_nat (cfg_maxAIRetries Worlds.three_tries)).
Proof.
  apply (all_rate_limited_run ScenarioA.dom "#login-button-invalid" ScenarioA.html
           Worlds.three_tries Worlds.throttled).
  - cbn. lia.
  - intros n. reflexivity.
Defined.

(** The sleeps of three rate-limited attempts from 500 ms. *)
Example three_rate_limited_attempts :
  sleeps (trace (snd (aiHeal ScenarioA.dom "#login-button-invalid" ScenarioA.html
                        Worlds.three_tries Worlds.throttled))) = [500; 1000]
  /\ posts (trace (snd (aiHeal ScenarioA.dom "#login-button-invalid" ScenarioA.html
                         Worlds.three_tries Worlds.throttled))) = 3%nat.
Proof. vm_compute. split; reflexivity. Qed.

(** ** Which responses lead to another request *)

(** C4, as stated, fails: the service never answers with a rate limit, yet
    a second request is issued, because an answer that is not clickable
    (here the wrapper [div]) and names no container moves the loop to the
    next attempt. *)
Lemma second_request_without_rate_limit :
  (forall n, remote Worlds.unhelpful n <> Failure (Some 429))
  /\ aiHeal ScenarioA.dom "#login-button-invalid" ScenarioA.html Worlds.two_tries Worlds.unhelpful
     = (Returned None,
        record_events
          [Post (request_of "#login-button-invalid" ScenarioA.html Worlds.two_tries (Some "sk-test"));
           Post (request_of "#login-button-invalid" ScenarioA.html Worlds.two_tries (Some "sk-test"))]
          Worlds.unhelpful).
Proof.
  split; [intros n; discriminate|]. vm_compute. reflexivity.
Qed.

Lemma retry_policy_nil dom r res : retry_policy dom r res (Returned None) [].
Proof. repeat split; cbn in *; lia. Qed.

Lemma retry_policy_last dom r res out tail :
  posts tail = 0%nat ->
  (forall status, res 0%nat = Failure status -> is_429 status = false ->
     out = Returned None /\ tail = [Warn AIHealingFailed]) ->
  (forall content, res 0%nat = Answer content -> usable dom (clean content) = false ->
     Re.login_container (clean content) = true -> out = Returned None /\ tail = []) ->
  retry_policy dom r res out (Post r :: tail).
Proof.
  intros Htail Hfail Hans.
  assert (Hposts : posts (Post r :: tail) = 1%nat).
  { change (Post r :: tail) with ([Post r] ++ tail). rewrite posts_app, Htail. reflexivity. }
  unfold retry_policy. rewrite Hposts. split; [intros; lia|]. split.
  - intros j status Hj Hres H429. assert (j = 0%nat) as -> by lia.
    destruct (Hfail _ Hres H429) as [-> ->]. split; [done|]. split; [done|]. by exists [].
  - intros j content Hj Hres Hu Hm. assert (j = 0%nat) as -> by lia.
    destruct (Hans _ Hres Hu Hm) as [-> ->]. split; [done|]. split; [done|]. by exists [].
Qed.

Lemma retry_policy_step dom r res out pre es :
  posts pre = 1%nat ->
  retryable dom (res 0%nat) = true ->
  retry_policy dom r (fun j => res (S j)) out es ->
  retry_policy dom r res out (pre ++ es).
Proof.
  intros Hpre Hretry (H1 & H2 & H3).
  unfold retry_policy. rewrite posts_app, Hpre. split; [|split].
  - intros [|j] Hj; [done|]. apply H1. lia.
  - intros [|j] status Hj Hres H429.
    + unfold retryable in Hretry. rewrite Hres in Hretry. congruence.
    + destruct (H2 j status) as (Hlast & Hout & es0 & ->); [lia|done|done|].
      split; [lia|]. split; [done|]. exists (pre ++ es0). by rewrite app_assoc.
  - intros [|j] content Hj Hres Hu Hm.
    + unfold retryable in Hretry. rewrite Hres, Hm, andb_false_r in Hretry. done.
    + destruct (H3 j content) as (Hlast & Hout & es0 & ->); [lia|done|done|done|].
      split; [lia|]. split; [done|]. exists (pre ++ es0). by rewrite app_assoc.
Qed.

Lemma retry_policy_ext dom r res res' out es :
  (forall j, res j = res' j) ->
  retry_policy dom r res out es -> retry_policy dom r res' out es.
Proof.
  intros Hext (H1 & H2 & H3). unfold retry_policy.
  split; [|split]; intros j; intros; rewrite <- ?Hext in *; eauto.
Qed.

(** Going on to the next attempt after the events [pre], which hold the
    request of this attempt. *)
Lemma retry_policy_continue dom r w pre out es :
  posts pre = 1%nat ->
  retryable dom (remote w (posts (trace w))) = true ->
  retry_policy dom r
    (fun j => remote (record_events pre w) (posts (trace (record_events pre w)) + j)%nat) out es ->
  retry_policy dom r (fun j => remote w (posts (trace w) + j)%nat) out (pre ++ es).
Proof.
  intros Hpre Hretry Hpol.
  apply retry_policy_step; [done|by rewrite Nat.add_0_r|].
  eapply retry_policy_ext; [|exact Hpol].
  intros j. unfold record_events. cbn [trace remote]. rewrite posts_app, Hpre. f_equal. lia.
Qed.

Lemma aiHeal_loop_policy dom failed html cfg key :
  forall attempts d w out w',
    aiHeal_loop dom failed html cfg key attempts d w = (out, w') ->
    remote w' = remote w
    /\ exists es,
        trace w' = trace w ++ es
        /\ retry_policy dom (request_of failed html cfg key)
             (fun j => remote w (posts (trace w) + j)%nat) out es.
Proof.
  induction attempts as [|attempt rest IH]; intros d w out w' Hrun.
  - cbn in Hrun. unfold ret in Hrun. simplify_eq. split; [done|].
    exists []. split; [by rewrite app_nil_r|]. apply retry_policy_nil.
  - cbn [aiHeal_loop] in Hrun. unfold bind at 1 in Hrun. unfold axios_post in Hrun.
    unfold bind at 1 in Hrun. unfold emit, ret in Hrun.
    set (r := request_of failed html cfg key) in *.
    destruct (remote w (posts (trace w))) as [content|status] eqn:Hres.
    + destruct (Js.truthy (clean content) && isClickableSelector dom (clean content)) eqn:Hu.
      * simplify_eq. split; [done|]. exists [Post r]. split; [done|].
        apply retry_policy_last; [done| |]; rewrite Nat.add_0_r, Hres; intros; simplify_eq.
        unfold usable in *. congruence.
      * destruct (Re.login_container (clean content)) eqn:Hm.
        -- simplify_eq. split; [done|]. exists [Post r]. split; [done|].
           apply retry_policy_last; [done| |]; rewrite Nat.add_0_r, Hres; intros; simplify_eq.
           done.
        -- rewrite record_event_events in Hrun.
           apply IH in Hrun as (Hremote & es & Htrace & Hpol).
           split; [done|]. exists ([Post r] ++ es).
           split; [by rewrite Htrace; cbn; rewrite <- app_assoc|].
           apply retry_policy_continue; [done| |done].
           rewrite Hres. unfold retryable, usable. by rewrite Hu, Hm.
    + destruct (is_429 status && (attempt <? cfg_maxAIRetries cfg)) eqn:Hgo.
      * unfold bind at 1 in Hrun. unfold console_warn, emit in Hrun.
        unfold bind at 1 in Hrun. unfold sleep, emit in Hrun.
        rewrite !record_event_events, !record_events_app in Hrun.
        apply IH in Hrun as (Hremote & es & Htrace & Hpol).
        split; [done|]. eexists (_ ++ es).
        split; [by rewrite Htrace; cbn; rewrite <- app_assoc|].
        apply retry_policy_continue; [done| |done].
        rewrite Hres. cbn. by apply andb_prop in Hgo as [? _].
      * unfold bind, console_warn, emit, ret in Hrun. simplify_eq.
        split; [done|]. exists [Post r; Warn AIHealingFailed].
        split; [by rewrite !record_event_events; cbn; rewrite <- app_assoc|].
        apply retry_policy_last; [done| |]; rewrite Nat.add_0_r, Hres; intros; simplify_eq.
        done.
Qed.

(** C4, amended. In a run of [aiHeal], every request but the last was
    answered either by a rate limit or by an answer that is neither
    clickable nor a container; a failure whose status is not 429 ends the
    run with none, with no request and no sleep after it; and an answer
    that is not clickable and names the container ends the run with none,
    with no request after it. *)
Theorem aiHeal_retry_policy dom failed html cfg w out w' :
  aiHeal dom failed html cfg w = (out, w') ->
  exists es,
    trace w' = trace w ++ es
    /\ retry_policy dom (request_of failed html cfg (env w !! "OPENAI_API_KEY"))
         (fun j => remote w (posts (trace w) + j)%nat) out es.
Proof.
  unfold aiHeal, bind, getenv. intros Hrun.
  by apply aiHeal_loop_policy in Hrun as (_ & Hpol).
Qed.

Lemma aiHeal_retry_policy_witness :
  exists es,
    trace (record_events
             [Post (request_of "#login-button-invalid" ScenarioA.html Worlds.two_tries (Some "sk-test"));
              Post (request_of "#login-button-invalid" ScenarioA.html Worlds.two_tries (Some "sk-test"))]
             Worlds.unhelpful)
    = trace Worlds.unhelpful ++ es
    /\ retry_policy ScenarioA.dom
         (request_of "#login-button-invalid" ScenarioA.html Worlds.two_tries
            (env Worlds.unhelpful !! "OPENAI_API_KEY"))
         (fun j => remote Worlds.unhelpful (posts (trace Worlds.unhelpful) + j)%nat)
         (Returned None) es.
Proof.
  apply (aiHeal_retry_policy ScenarioA.dom "#login-button-invalid" ScenarioA.html
           Worlds.two_tries Worlds.unhelpful).
  vm_compute. reflexivity.
Defined.

(** ** The container guard of the heuristic *)

Lemma prefix_app_l n : forall a b, String.prefix n a = true -> String.prefix n (a +:+ b) = true.
Proof.
  induction n as [|c n IH]; intros a b H; [by destruct (a +:+ b)|].
  destruct a as [|c' a]; [discriminate|].
  change (String c' a +:+ b) with (String c' (a +:+ b)). cbn [String.prefix] in *.
  destruct (ascii_dec c c'); [eauto|discriminate].
Qed.

Lemma includes_app_l n : forall a b, Js.includes a n = true -> Js.includes (a +:+ b) n = true.
Proof.
  induction a as [|c a IH]; intros b H.
  - cbn in H. rewrite orb_false_r in H. destruct n; [|discriminate].
    by destruct b.
  - change (String c a +:+ b) with (String c (a +:+ b)).
    cbn [Js.includes] in *. apply orb_prop in H as [H|H].
    + apply (prefix_app_l _ _ b) in H.
      change (String c a +:+ b) with (String c (a +:+ b)) in H. by rewrite H.
    + rewrite (IH _ H). apply orb_true_r.
Qed.

(** A candidate that passes the negative filter has no container or
    wrapper marker in its id. *)
Lemma looksContainer_false_id el :
  looksContainer el = false ->
  Re.container_or_wrapper (attr (el_attribs el) "id") = false.
Proof.
  unfold looksContainer, containsAny, Re.container_or_wrapper. cbn [existsb].
  intros H. apply orb_false_elim in H as [Hc H]. apply orb_false_elim in H as [Hw _].
  apply orb_false_intro.
  - destruct (Js.includes (Js.toLowerCase (attr (el_attribs el) "id")) "container") eqn:E; [|done].
    by rewrite (includes_app_l _ _ _ E) in Hc.
  - destruct (Js.includes (Js.toLowerCase (attr (el_attribs el) "id")) "wrapper") eqn:E; [|done].
    by rewrite (includes_app_l _ _ _ E) in Hw.
Qed.

Lemma attr_without_eq k el : attr (el_attribs (without_attr k el)) k = EmptyString.
Proof. unfold attr, without_attr; cbn. by rewrite lookup_delete_eq. Qed.

Lemma attr_without_ne k k' el :
  k <> k' -> attr (el_attribs (without_attr k el)) k' = attr (el_attribs el) k'.
Proof. intros H. unfold attr, without_attr; cbn. by rewrite lookup_delete_ne. Qed.

(** A data-test that names a container or a wrapper plays no part in the
    synthesis of the selector. *)
Lemma buildBestSelectorFor_skips_marked_data_test el :
  Re.container_or_wrapper (attr (el_attribs el) "data-test") = true ->
  buildBestSelectorFor el = buildBestSelectorFor (without_attr "data-test" el).
Proof.
  intros H. unfold buildBestSelectorFor.
  rewrite attr_without_eq, !attr_without_ne by done.
  rewrite H. cbn [negb andb Js.truthy Js.is_empty]. rewrite andb_false_r. reflexivity.
Qed.

Lemma beats_Some_true s b : beats s (Some b) = true -> b < s.
Proof. unfold beats. apply Z.ltb_lt. Qed.

Lemma beats_Some_false s b : beats s (Some b) = false -> s <= b.
Proof. unfold beats. apply Z.ltb_ge. Qed.

Lemma beats_trans s s' best : beats s best = true -> s < s' -> beats s' best = true.
Proof.
  destruct best as [b|]; [|done].
  intros H%beats_Some_true ?. apply Z.ltb_lt. lia.
Qed.

(** What the scoring loop leaves in [(bestSel, bestScore)]: either what it
    started from, no surviving candidate beating it, or the selector and
    the score of a surviving candidate that no surviving candidate
    outscores. *)
Lemma score_loop_best tokens :
  forall candidates sel0 sc0 sel sc,
    score_loop tokens candidates sel0 sc0 = (sel, sc) ->
    (sel = sel0 /\ sc = sc0
     /\ forall el, In el candidates -> looksContainer el = false ->
                   beats (score tokens el) sc0 = false)
    \/ (exists el,
          In el candidates /\ looksContainer el = false
          /\ sel = buildBestSelectorFor el /\ sc = Some (score tokens el)
          /\ beats (score tokens el) sc0 = true
          /\ forall el', In el' candidates -> looksContainer el' = false ->
                         score tokens el' <= score tokens el).
Proof.
  induction candidates as [|el rest IH]; intros sel0 sc0 sel sc Hrun.
  - cbn [score_loop] in Hrun. simplify_eq. left. repeat split. intros el [].
  - cbn [score_loop] in Hrun. destruct (looksContainer el) eqn:Hc.
    + apply IH in Hrun as [(-> & -> & Hno)|(el1 & Hin & Hc1 & -> & -> & Hb & Hmax)].
      * left. repeat split. intros el' [<-|Hin] Hc'; [congruence|eauto].
      * right. exists el1. repeat split; [by right|done|done|].
        intros el' [<-|Hin'] Hc'; [congruence|eauto].
    + destruct (beats (score tokens el) sc0) eqn:Hb.
      * apply IH in Hrun as [(-> & -> & Hno)|(el1 & Hin & Hc1 & -> & -> & Hb1 & Hmax)].
        -- right. exists el. repeat split; [by left|done|done|].
           intros el' [<-|Hin'] Hc'; [apply Z.le_refl|].
           apply beats_Some_false. eauto.
        -- apply beats_Some_true in Hb1.
           right. exists el1. repeat split; [by right|done|by eapply beats_trans|].
           intros el' [<-|Hin'] Hc'; [by apply Z.lt_le_incl|eauto].
      * apply IH in Hrun as [(-> & -> & Hno)|(el1 & Hin & Hc1 & -> & -> & Hb1 & Hmax)].
        -- left. repeat split. intros el' [<-|Hin'] Hc'; [done|eauto].
        -- right. exists el1. repeat split; [by right|done|done|].
           intros el' [<-|Hin'] Hc'; [|eauto].
           destruct sc0 as [b|]; [|discriminate].
           apply beats_Some_false in Hb. apply beats_Some_true in Hb1.
           eapply Z.le_trans; [exact Hb|by apply Z.lt_le_incl].
Qed.

(** C5, as stated, fails for the data-test attribute: the only candidate
    is a button whose data-test names a wrapper, and the heuristic returns
    the selector synthesized for that very element, from its id. *)
Lemma data_test_wrapper_still_returned :
  collect ScenarioWrapped.dom candidate_selectors = Some [ScenarioWrapped.go_button]
  /\ Re.container_or_wrapper (attr (el_attribs ScenarioWrapped.go_button) "data-test") = true
  /\ buildBestSelectorFor ScenarioWrapped.go_button = "#go"
  /\ fst (heuristicHeal ScenarioWrapped.dom "#go-btn" Worlds.fresh) = Returned (Some "#go").
Proof. vm_compute. repeat split; reflexivity. Qed.

(** C5, amended. Let [bestSel] be what the scoring loop leaves, the
    selector of the highest-scoring candidate that passed the filter. If
    [bestSel] matches the container guard, [heuristicHeal] returns none.
    A selector that [heuristicHeal] returns is [bestSel], does not match
    the guard, and was synthesized for a candidate that passed the filter,
    that no such candidate outscores, and whose id holds no container or
    wrapper marker; when the data-test of that candidate holds such a
    marker, the selector is the one synthesized from its other attributes. *)
Theorem heuristic_container_guard dom failed w candidates bestSel bestScore :
  collect dom candidate_selectors = Some candidates ->
  score_loop (extractTokens failed) candidates EmptyString None = (bestSel, bestScore) ->
  (Re.container_guard bestSel = true -> fst (heuristicHeal dom failed w) = Returned None)
  /\ forall sel,
      fst (heuristicHeal dom failed w) = Returned (Some sel) ->
      sel = bestSel
      /\ Re.container_guard sel = false
      /\ exists el,
          In el candidates
          /\ sel = buildBestSelectorFor el
          /\ looksContainer el = false
          /\ Re.container_or_wrapper (attr (el_attribs el) "id") = false
          /\ (forall el', In el' candidates -> looksContainer el' = false ->
                score (extractTokens failed) el' <= score (extractTokens failed) el)
          /\ (Re.container_or_wrapper (attr (el_attribs el) "data-test") = true ->
                sel = buildBestSelectorFor (without_attr "data-test" el)).
Proof.
  intros Hcollect Hloop.
  assert (Hrun : fst (heuristicHeal dom failed w)
                 = Returned (pick (extractTokens failed) candidates)).
  { unfold heuristicHeal, bind, console_log, emit. by rewrite Hcollect. }
  rewrite Hrun. unfold pick. rewrite Hloop. split.
  - intros Hguard. rewrite Hguard. by repeat case_match.
  - intros sel Hsel.
    destruct (length candidates =? 0)%nat; [discriminate|].
    destruct (Js.truthy bestSel) eqn:Htruthy; [|discriminate]. cbn [negb] in Hsel.
    destruct (Re.container_guard bestSel) eqn:Hguard; [discriminate|].
    simplify_eq. split; [done|]. split; [done|].
    apply score_loop_best in Hloop
      as [(-> & _)|(el & Hin & Hc & -> & _ & _ & Hmax)]; [discriminate|].
    exists el. repeat split; try done.
    + by apply looksContainer_false_id.
    + apply buildBestSelectorFor_skips_marked_data_test.
Qed.

Lemma heuristic_container_guard_witness :
  (Re.container_guard "#go" = true ->
   fst (heuristicHeal ScenarioWrapped.dom "#go-btn" Worlds.fresh) = Returned None)
  /\ forall sel,
      fst (heuristicHeal ScenarioWrapped.dom "#go-btn" Worlds.fresh) = Returned (Some sel) ->
      sel = "#go"
      /\ Re.container_guard sel = false
      /\ exists el,
          In el [ScenarioWrapped.go_button]
          /\ sel = buildBestSelectorFor el
          /\ looksContainer el = false
          /\ Re.container_or_wrapper (attr (el_attribs el) "id") = false
          /\ (forall el', In el' [ScenarioWrapped.go_button] -> looksContainer el' = false ->
                score (extractTokens "#go-btn") el' <= score (extractTokens "#go-btn") el)
          /\ (Re.container_or_wrapper (attr (el_attribs el) "data-test") = true ->
                sel = buildBestSelectorFor (without_attr "data-test" el)).
Proof.
  apply (heuristic_container_guard ScenarioWrapped.dom "#go-btn" Worlds.fresh
           [ScenarioWrapped.go_button] "#go" (Some 0)).
  - vm_compute. reflexivity.
  - vm_compute. reflexivity.
Defined.

(** ** Cache failures are absorbed *)































(** C8. A cache file that holds the text null is not absorbed. [readFile]
    returns what [JSON.parse] gives of it, [null], with no diagnostic;
    [getHealed] then reads a property of [null], which throws, and
    [setHealed] sets one, which throws as well. The exception leaves
    [healSelector] before any stage has run: on the page of scenario A,
    which the heuristic stage heals when the file is missing, the call
    fails, with no selector, no diagnostic and the file as it was. And a
    missing file does not read as a miss for every key: under the name
    constructor, as under each property name of [Object.prototype],
    [getHealed] returns the inherited value. *)
Theorem null_cache_file_aborts_healing :
  readFile Worlds.null_file = (Returned JsNull, Worlds.null_file)
  /\ getHealed "#login-button-invalid" Worlds.null_file = (Thrown, Worlds.null_file)
  /\ setHealed "#login-button-invalid" "#login-button" heuristic Worlds.null_file
     = (Thrown, Worlds.null_file)
  /\ healSelector Worlds.load "#login-button-invalid" ScenarioA.html no_options Worlds.null_file
     = (Thrown, Worlds.null_file)
  /\ fst (healSelector Worlds.load "#login-button-invalid" ScenarioA.html no_options Worlds.fresh)
     = Returned (Some "#login-button")
  /\ getHealed "constructor" Worlds.fresh
     = (Returned (Some (Inherited "constructor")), Worlds.fresh).
Proof. repeat split; vm_compute; reflexivity. Qed.

(** Scenario A on a disk that can be neither read nor written: the call
    heals the locator, and its events are the two cache warnings around
    the lines of the heuristic stage. *)
Example scenario_A_on_broken_disk :
  healSelector Worlds.load "#login-button-invalid" ScenarioA.html no_options Worlds.broken_disk
  = (Returned (Some "#login-button"),
     record_events
       [Warn CacheReadFailed;
        Log (TryingHeuristic "#login-button-invalid");
        Log (HeuristicTokens ["login"; "button"; "invalid"]);
        Log (HeuristicFound "#login-button");
        Warn CacheReadFailed;
        Warn CacheWriteFailed]
       Worlds.broken_disk).
Proof. vm_compute. reflexivity. Qed.

(** * Further properties *)

(** ** Tokens *)

Lemma existsb_eqb_In x (xs : list string) : existsb (String.eqb x) xs = true <-> In x xs.
Proof.
  rewrite existsb_exists. split.
  - intros (y & Hy & Heq). apply String.eqb_eq in Heq. by subst.
  - intros H. exists x. split; [done|apply String.eqb_refl].
Qed.

Lemma dedup_from_spec xs :
  forall seen,
    List.NoDup (Js.dedup_from seen xs)
    /\ forall x, In x (Js.dedup_from seen xs) <-> In x xs /\ ~ In x seen.
Proof.
  induction xs as [|y ys IH]; intros seen; cbn [Js.dedup_from].
  - split; [constructor|]. intros x. cbn. tauto.
  - destruct (existsb (String.eqb y) seen) eqn:Hseen.
    + destruct (IH seen) as [Hnd Hin]. split; [done|].
      apply existsb_eqb_In in Hseen. intros x. rewrite Hin. cbn.
      split; [tauto|]. intros [[<-|H] Hx]; tauto.
    + destruct (IH (y :: seen)) as [Hnd Hin].
      assert (Hy : ~ In y seen).
      { intros H%existsb_eqb_In. congruence. }
      split.
      * constructor; [|done]. rewrite Hin. cbn. tauto.
      * intros x. cbn. rewrite Hin. cbn.
        destruct (String.eqb_spec y x); [subst|]; tauto.
Qed.

Lemma insert_by_perm r x xs : Permutation (Js.insert_by r x xs) (x :: xs).
Proof.
  induction xs as [|y ys IH]; cbn [Js.insert_by]; [done|].
  destruct (r y <? r x); [|done].
  rewrite IH. apply perm_swap.
Qed.

Lemma sort_by_perm r xs : Permutation (Js.sort_by r xs) xs.
Proof.
  induction xs as [|x xs IH]; cbn; [done|].
  fold (Js.sort_by r xs). rewrite insert_by_perm. by constructor.
Qed.

Lemma extractTokens_unsorted sel : extractTokens sel = Js.sort_by rank (unsorted_tokens sel).
Proof. reflexivity. Qed.

(** X1. The tokens of a selector are pairwise distinct. *)
Theorem extractTokens_distinct sel : List.NoDup (extractTokens sel).
Proof.
  rewrite extractTokens_unsorted.
  eapply Permutation_NoDup; [symmetry; apply sort_by_perm|].
  apply List.NoDup_filter. apply (dedup_from_spec _ []).
Qed.

Lemma split_runs_fields sep s :
  Forall (fun f => Js.all_chars (fun c => negb (sep c)) f = true) (Js.split_runs sep s).
Proof.
  induction s as [|c s IH]; cbn [Js.split_runs]; [by repeat constructor|].
  destruct (sep c) eqn:Hc.
  - destruct (Js.head_is sep s); [done|]. by constructor.
  - destruct (Js.split_runs sep s) as [|f fs]; [by repeat constructor; cbn; rewrite Hc|].
    inversion IH; subst. constructor; [|done]. cbn. by rewrite Hc.
Qed.

Lemma all_chars_drop_while p q s :
  Js.all_chars p s = true -> Js.all_chars p (Js.drop_while q s) = true.
Proof.
  induction s as [|c s IH]; cbn; [done|]. intros [? ?]%andb_prop.
  destruct (q c); [auto|]. cbn. by apply andb_true_intro.
Qed.

Lemma all_chars_drop_while_end p q s :
  Js.all_chars p s = true -> Js.all_chars p (Js.drop_while_end q s) = true.
Proof.
  induction s as [|c s IH]; cbn; [done|]. intros [? ?]%andb_prop.
  destruct (q c && _); [done|]. cbn. apply andb_true_intro. auto.
Qed.

Lemma lower_char_alnum c :
  Js.is_alnum c = true -> is_token_char (Js.lower_char c) = true.
Proof. destruct c as [[] [] [] [] [] [] [] []]; vm_compute; congruence. Qed.

Lemma toLowerCase_alnum s :
  Js.all_chars Js.is_alnum s = true ->
  Js.all_chars is_token_char (Js.toLowerCase s) = true.
Proof.
  induction s as [|c s IH]; cbn; [done|]. intros [? ?]%andb_prop.
  apply andb_true_intro. split; [by apply lower_char_alnum|auto].
Qed.

Lemma all_chars_ext p q s :
  (forall c, p c = q c) -> Js.all_chars p s = Js.all_chars q s.
Proof. intros H. induction s as [|c s IH]; cbn; [done|]. by rewrite H, IH. Qed.

Lemma In_unsorted_tokens sel t :
  In t (unsorted_tokens sel) ->
  (3 <= String.length t)%nat /\ Js.all_chars is_token_char t = true.
Proof.
  unfold unsorted_tokens. rewrite filter_In. intros [Hin Hlen].
  split; [by apply Nat.leb_le|].
  apply (dedup_from_spec _ []) in Hin as [Hin _].
  apply filter_In in Hin as [Hin _].
  apply in_map_iff in Hin as (f & <- & Hf).
  pose proof (split_runs_fields (fun c => negb (Js.is_alnum c))
                (Js.replace_chars is_selector_syntax " " sel)) as Hfields.
  rewrite List.Forall_forall in Hfields. specialize (Hfields f Hf).
  rewrite (all_chars_ext _ Js.is_alnum) in Hfields by (intros; apply negb_involutive).
  apply toLowerCase_alnum. unfold Js.trim.
  by apply all_chars_drop_while_end, all_chars_drop_while.
Qed.

(** X2. Every token has at least three characters, each a lower-case
    ASCII letter or a digit. *)
Theorem extractTokens_shape sel t :
  In t (extractTokens sel) ->
  (3 <= String.length t)%nat /\ Js.all_chars is_token_char t = true.
Proof.
  rewrite extractTokens_unsorted. intros Hin.
  apply In_unsorted_tokens with sel.
  eapply Permutation_in; [apply sort_by_perm|done].
Qed.

Lemma extractTokens_shape_witness :
  (3 <= String.length "invalid")%nat /\ Js.all_chars is_token_char "invalid" = true.
Proof.
  apply (extractTokens_shape "#login-button-invalid" "invalid").
  vm_compute. tauto.
Defined.

Lemma insert_by_sorted r x xs :
  StronglySorted (fun a b => r a <= r b) xs ->
  StronglySorted (fun a b => r a <= r b) (Js.insert_by r x xs).
Proof.
  induction 1 as [|y ys Hs IH Hy]; cbn [Js.insert_by]; [by repeat constructor|].
  destruct (r y <? r x) eqn:Hlt.
  - apply Z.ltb_lt in Hlt. constructor; [done|].
    eapply Permutation_Forall; [symmetry; apply insert_by_perm|].
    constructor; [lia|done].
  - apply Z.ltb_ge in Hlt. constructor; [by constructor|].
    constructor; [done|]. eapply List.Forall_impl; [|exact Hy]. cbn. intros; lia.
Qed.

Lemma sort_by_sorted r xs : StronglySorted (fun a b => r a <= r b) (Js.sort_by r xs).
Proof.
  induction xs as [|x xs IH]; cbn; [constructor|]. by apply insert_by_sorted.
Qed.

(** The sort is stable: the elements of one rank keep their order. *)
Lemma insert_by_stable r k x xs :
  List.filter (fun t => r t =? k) (Js.insert_by r x xs)
  = List.filter (fun t => r t =? k) (x :: xs).
Proof.
  induction xs as [|y ys IH]; cbn [Js.insert_by]; [done|].
  destruct (r y <? r x) eqn:Hlt; [|done].
  apply Z.ltb_lt in Hlt. cbn [List.filter] in *. rewrite IH.
  destruct (r y =? k) eqn:Hy, (r x =? k) eqn:Hx; try done.
  apply Z.eqb_eq in Hy, Hx. lia.
Qed.

Lemma sort_by_stable r k xs :
  List.filter (fun t => r t =? k) (Js.sort_by r xs) = List.filter (fun t => r t =? k) xs.
Proof.
  induction xs as [|x xs IH]; cbn [Js.sort_by fold_right]; [done|].
  fold (Js.sort_by r xs). rewrite insert_by_stable. cbn [List.filter]. by rewrite IH.
Qed.

Lemma rank_values t : rank t = -2 \/ rank t = -1 \/ rank t = 0.
Proof. unfold rank. repeat case_match; auto. Qed.

Lemma filter_none {A} (p : A -> bool) xs :
  Forall (fun x => p x = false) xs -> List.filter p xs = [].
Proof. induction 1 as [|x xs Hx _ IH]; cbn; [done|]. by rewrite Hx. Qed.

(** A list sorted by rank is its three rank classes, one after the other. *)
Lemma sorted_by_rank_classes xs :
  StronglySorted (fun a b => rank a <= rank b) xs ->
  xs = List.filter (fun t => rank t =? -2) xs
       ++ List.filter (fun t => rank t =? -1) xs
       ++ List.filter (fun t => rank t =? 0) xs.
Proof.
  induction 1 as [|y ys Hs IH Hy]; [done|]. cbn [List.filter].
  destruct (rank_values y) as [Hr|[Hr|Hr]]; rewrite Hr in *; cbn [Z.eqb Pos.eqb].
  - cbn. by rewrite <- IH.
  - rewrite (filter_none (fun t => rank t =? -2) ys).
    + cbn. f_equal. rewrite IH at 1.
      by rewrite (filter_none (fun t => rank t =? -2) ys)
        by (eapply List.Forall_impl; [|exact Hy]; cbn; intros; apply Z.eqb_neq; lia).
    + eapply List.Forall_impl; [|exact Hy]. cbn. intros. apply Z.eqb_neq. lia.
  - rewrite (filter_none (fun t => rank t =? -2) ys), (filter_none (fun t => rank t =? -1) ys).
    + cbn. f_equal. rewrite IH at 1.
      rewrite (filter_none (fun t => rank t =? -2) ys), (filter_none (fun t => rank t =? -1) ys);
        [done| |]; eapply List.Forall_impl; try exact Hy; cbn; intros; apply Z.eqb_neq; lia.
    + eapply List.Forall_impl; [|exact Hy]. cbn. intros. apply Z.eqb_neq. lia.
    + eapply List.Forall_impl; [|exact Hy]. cbn. intros. apply Z.eqb_neq. lia.
Qed.

Lemma rank_login t : (rank t =? -2) = String.eqb t "login".
Proof. unfold rank. repeat case_match; done. Qed.

Lemma rank_button t : (rank t =? -1) = String.eqb t "button".
Proof.
  unfold rank. destruct (String.eqb_spec t "login") as [->|]; [done|].
  by destruct (String.eqb t "button").
Qed.

(** X3. The sort of [extractTokens] puts the token login first, the token
    button next, and leaves all other tokens in the order of their first
    occurrence in the selector. *)
Theorem extractTokens_order sel :
  extractTokens sel
  = List.filter (fun t => String.eqb t "login") (unsorted_tokens sel)
    ++ List.filter (fun t => String.eqb t "button") (unsorted_tokens sel)
    ++ List.filter is_plain (unsorted_tokens sel).
Proof.
  rewrite extractTokens_unsorted.
  rewrite (sorted_by_rank_classes _ (sort_by_sorted rank (unsorted_tokens sel))) at 1.
  rewrite !sort_by_stable. unfold is_plain.
  f_equal; [|f_equal]; apply filter_ext; intros t; [apply rank_login|apply rank_button].
Qed.

(** ** Letter case *)

Lemma lower_char_facts c :
  is_selector_syntax (Js.lower_char c) = is_selector_syntax c
  /\ Js.is_alnum (Js.lower_char c) = Js.is_alnum c
  /\ Js.is_space (Js.lower_char c) = Js.is_space c
  /\ Js.lower_char (Js.lower_char c) = Js.lower_char c.
Proof. destruct c as [[] [] [] [] [] [] [] []]; vm_compute; tauto. Qed.

Lemma toLowerCase_idem s : Js.toLowerCase (Js.toLowerCase s) = Js.toLowerCase s.
Proof.
  induction s as [|c s IH]; cbn; [done|].
  rewrite IH. by destruct (lower_char_facts c) as (_ & _ & _ & ->).
Qed.

Lemma drop_while_lower p s :
  (forall c, p (Js.lower_char c) = p c) ->
  Js.drop_while p (Js.toLowerCase s) = Js.toLowerCase (Js.drop_while p s).
Proof.
  intros Hp. induction s as [|c s IH]; cbn; [done|]. rewrite Hp.
  by destruct (p c).
Qed.

Lemma is_empty_lower s : Js.is_empty (Js.toLowerCase s) = Js.is_empty s.
Proof. by destruct s. Qed.

Lemma drop_while_end_lower p s :
  (forall c, p (Js.lower_char c) = p c) ->
  Js.drop_while_end p (Js.toLowerCase s) = Js.toLowerCase (Js.drop_while_end p s).
Proof.
  intros Hp. induction s as [|c s IH]; cbn; [done|].
  rewrite IH, Hp, is_empty_lower. by destruct (p c && _).
Qed.

Lemma trim_lower s : Js.trim (Js.toLowerCase s) = Js.toLowerCase (Js.trim s).
Proof.
  unfold Js.trim.
  rewrite drop_while_lower, drop_while_end_lower; [done| |];
    intros c; by destruct (lower_char_facts c) as (_ & _ & -> & _).
Qed.

Lemma split_runs_lower sep s :
  (forall c, sep (Js.lower_char c) = sep c) ->
  Js.split_runs sep (Js.toLowerCase s) = map Js.toLowerCase (Js.split_runs sep s).
Proof.
  intros Hsep. induction s as [|c s IH]; [done|].
  cbn [Js.toLowerCase Js.split_runs]. rewrite IH, Hsep.
  assert (Js.head_is sep (Js.toLowerCase s) = Js.head_is sep s) as ->.
  { destruct s; cbn; [done|apply Hsep]. }
  destruct (sep c); [by destruct (Js.head_is sep s)|].
  by destruct (Js.split_runs sep s).
Qed.

Lemma replace_syntax_lower s :
  Js.replace_chars is_selector_syntax " " (Js.toLowerCase s)
  = Js.toLowerCase (Js.replace_chars is_selector_syntax " " s).
Proof.
  induction s as [|c s IH]; [done|]. cbn [Js.toLowerCase Js.replace_chars].
  rewrite IH. destruct (lower_char_facts c) as (-> & _).
  by destruct (is_selector_syntax c).
Qed.

(** X4. Token extraction ignores the letter case of an ASCII selector:
    such a selector and its lower-case form have the same tokens. *)
Theorem extractTokens_ignores_case sel :
  Js.all_chars is_ascii sel = true ->
  extractTokens (Js.toLowerCase sel) = extractTokens sel.
Proof.
  intros _. unfold extractTokens. do 4 f_equal.
  rewrite replace_syntax_lower, split_runs_lower, map_map.
  - apply map_ext. intros f. by rewrite trim_lower, toLowerCase_idem.
  - intros c. by destruct (lower_char_facts c) as (_ & -> & _).
Qed.

Lemma extractTokens_ignores_case_witness :
  extractTokens (Js.toLowerCase "#Login-Button.BTN") = extractTokens "#Login-Button.BTN".
Proof. apply (extractTokens_ignores_case "#Login-Button.BTN"). vm_compute. reflexivity. Defined.

(** ** Token matches *)

Lemma fold_hits (p : string -> bool) w tokens :
  forall a,
    fold_left (fun score t => if p t then score + w else score) tokens a
    = a + w * Z.of_nat (length (List.filter p tokens)).
Proof.
  induction tokens as [|t ts IH]; intros a; cbn [fold_left List.filter]; [cbn; lia|].
  rewrite IH. destruct (p t); cbn [length]; lia.
Qed.

(** X5. [tokenMatchScore] is the weight times the number of tokens the
    lower-cased value contains, nothing for an empty value, whatever the
    sign of the weight; so its size is at most that of the weight times
    the number of tokens. *)
Theorem tokenMatchScore_count tokens value w :
  tokenMatchScore tokens value w
  = w * Z.of_nat (length (List.filter
                            (fun t => Js.truthy value && Js.includes (Js.toLowerCase value) t)
                            tokens))
  /\ Z.abs (tokenMatchScore tokens value w) <= Z.abs w * Z.of_nat (length tokens).
Proof.
  assert (Heq : tokenMatchScore tokens value w
                = w * Z.of_nat (length (List.filter
                     (fun t => Js.truthy value && Js.includes (Js.toLowerCase value) t) tokens))).
  { unfold tokenMatchScore. destruct (Js.truthy value); cbn [negb andb].
    - by rewrite fold_hits.
    - rewrite filter_none; [cbn; lia|]. by apply List.Forall_forall. }
  split; [done|]. rewrite Heq.
  pose proof (List.filter_length_le
                (fun t => Js.truthy value && Js.includes (Js.toLowerCase value) t) tokens) as Hle.
  rewrite Z.abs_mul, (Z.abs_eq (Z.of_nat _)) by lia.
  apply Z.mul_le_mono_nonneg_l; lia.
Qed.

(** ** Selector synthesis *)

Lemma truthy_app_l a b : Js.truthy a = true -> Js.truthy (a +:+ b) = true.
Proof. by destruct a. Qed.

Lemma buildBestSelectorFor_nonempty el : Js.truthy (buildBestSelectorFor el) = true.
Proof.
  unfold buildBestSelectorFor.
  assert (Htag : Js.truthy (if Js.truthy (el_name el) then el_name el else "div") = true).
  { by destruct (Js.truthy (el_name el)) eqn:E. }
  repeat case_match; try done; by apply truthy_app_l.
Qed.

Lemma score_loop_all_filtered tokens candidates :
  Forall (fun el => looksContainer el = true) candidates ->
  forall sel sc, score_loop tokens candidates sel sc = (sel, sc).
Proof.
  induction 1 as [|el rest Hel _ IH]; intros sel sc; cbn [score_loop]; [done|].
  by rewrite Hel.
Qed.

(** X6. [heuristicHeal] returns none in two cases only: every candidate
    is dropped by the container filter (or there is none), or the selector
    the scoring loop ends with matches the container guard. *)
Theorem heuristicHeal_none_iff dom failed w candidates :
  collect dom candidate_selectors = Some candidates ->
  fst (heuristicHeal dom failed w) = Returned None
  <-> Forall (fun el => looksContainer el = true) candidates
      \/ Re.container_guard
           (fst (score_loop (extractTokens failed) candidates EmptyString None)) = true.
Proof.
  intros Hcollect.
  assert (Hrun : fst (heuristicHeal dom failed w)
                 = Returned (pick (extractTokens failed) candidates)).
  { unfold heuristicHeal, bind, console_log, emit. by rewrite Hcollect. }
  rewrite Hrun. unfold pick.
  destruct (score_loop (extractTokens failed) candidates EmptyString None)
    as [bestSel bestScore] eqn:Hloop. cbn [fst].
  split.
  - intros Hnone.
    destruct (Re.container_guard bestSel) eqn:Hguard; [by right|left].
    apply score_loop_best in Hloop as [(-> & -> & Hno)|(el & _ & _ & -> & _)].
    + apply List.Forall_forall. intros el Hin.
      destruct (looksContainer el) eqn:Hc; [done|]. by specialize (Hno el Hin Hc).
    + rewrite buildBestSelectorFor_nonempty in Hnone. cbn [negb] in Hnone.
      destruct candidates; [constructor|discriminate].
  - intros [Hall|Hguard].
    + rewrite (score_loop_all_filtered _ _ Hall) in Hloop. simplify_eq.
      by destruct (length candidates =? 0)%nat.
    + rewrite Hguard. by repeat case_match.
Qed.

Lemma heuristicHeal_none_iff_witness :
  fst (heuristicHeal ScenarioA.dom "#login-button-invalid" Worlds.fresh) = Returned None
  <-> Forall (fun el => looksContainer el = true) [ScenarioA.login_button]
      \/ Re.container_guard
           (fst (score_loop (extractTokens "#login-button-invalid") [ScenarioA.login_button]
                   EmptyString None)) = true.
Proof.
  apply (heuristicHeal_none_iff ScenarioA.dom "#login-button-invalid" Worlds.fresh
           [ScenarioA.login_button]).
  vm_compute. reflexivity.
Defined.

Lemma cssEscape_cons c s :
  cssEscape (String c s)
  = if Ascii.eqb "034" c then String "\" (String "034" (cssEscape s))
    else String c (cssEscape s).
Proof.
  unfold cssEscape. cbn [Js.replace_chars].
  destruct (Ascii.eqb "034" c); reflexivity.
Qed.

Lemma head_cssEscape s : Js.head_is (Ascii.eqb "034") (cssEscape s) = false.
Proof.
  destruct s as [|c s]; [done|]. rewrite cssEscape_cons.
  destruct (Ascii.eqb "034" c) eqn:E; [done|]. cbn. exact E.
Qed.

(** X7. [cssEscape] puts a backslash before every double quote and changes
    nothing else: in its result no double quote is left without a
    backslash before it, taking away the backslash before each double
    quote of the result gives the text back, and the result is longer than
    the text by the number of its double quotes. *)
Theorem cssEscape_quotes s :
  unescaped_quote false (cssEscape s) = false
  /\ unescape_quotes (cssEscape s) = s
  /\ String.length (cssEscape s) = (String.length s + count_quotes s)%nat.
Proof.
  split; [|split].
  2: { induction s as [|c s IH]; [done|].
       rewrite cssEscape_cons. destruct (Ascii.eqb_spec "034" c) as [<-|Hc].
       - cbn [unescape_quotes Js.head_is]. cbn [Ascii.eqb Bool.eqb andb].
         cbn. by rewrite IH.
       - cbn [unescape_quotes]. rewrite head_cssEscape, andb_false_r. by rewrite IH. }
  - enough (forall prev, unescaped_quote prev (cssEscape s) = false) by done.
    induction s as [|c s IH]; intros prev; [done|].
    rewrite cssEscape_cons. destruct (Ascii.eqb_spec "034" c) as [<-|Hc].
    + cbn. apply IH.
    + cbn [unescaped_quote]. rewrite IH.
      destruct (Ascii.eqb_spec c "034"); [congruence|done].
  - induction s as [|c s IH]; [done|].
    rewrite cssEscape_cons. cbn [count_quotes String.length].
    rewrite (Ascii.eqb_sym c). destruct (Ascii.eqb "034" c); cbn [String.length]; lia.
Qed.

(** ** The container guard *)

Lemma strip_prefix_prefix w :
  forall s r, Js.strip_prefix w s = Some r -> String.prefix w s = true.
Proof.
  induction w as [|a w IH]; intros s r H; [by destruct s|].
  destruct s as [|b s]; [discriminate|]. cbn in *.
  destruct (Ascii.eqb_spec a b) as [->|]; [|discriminate].
  destruct (ascii_dec b b); [eauto|done].
Qed.

Lemma strip_prefix_app w :
  forall s r, Js.strip_prefix w s = Some r -> s = w +:+ r.
Proof.
  induction w as [|a w IH]; intros s r H; [cbn in H; by simplify_eq|].
  destruct s as [|b s]; [discriminate|]. cbn in H.
  destruct (Ascii.eqb_spec a b) as [->|]; [|discriminate].
  change (String b w +:+ r) with (String b (w +:+ r)). f_equal. eauto.
Qed.

Lemma includes_prefix w s : String.prefix w s = true -> Js.includes s w = true.
Proof. intros H. destruct s; cbn [Js.includes]; by rewrite H. Qed.

Lemma includes_cons c s w : Js.includes s w = true -> Js.includes (String c s) w = true.
Proof. intros H. cbn [Js.includes]. rewrite H. apply orb_true_r. Qed.

Lemma includes_app_r w a :
  forall b, Js.includes b w = true -> Js.includes (a +:+ b) w = true.
Proof.
  induction a as [|c a IH]; intros b H; [done|].
  change (String c a +:+ b) with (String c (a +:+ b)). by apply includes_cons, IH.
Qed.

Lemma guard_word_marker t :
  Re.guard_word_here t = true ->
  Js.includes t "container" || Js.includes t "wrapper" = true.
Proof.
  unfold Re.guard_word_here, Re.guard_words. cbn [existsb].
  destruct (Js.strip_prefix "login-container" t) as [r|] eqn:Hlc.
  { intros _. apply orb_true_intro. left.
    apply strip_prefix_app in Hlc as ->.
    change ("login-container" +:+ r) with ("login-" +:+ ("container" +:+ r)).
    apply includes_app_r, includes_prefix. by apply prefix_app_l. }
  destruct (Js.strip_prefix "wrapper" t) as [r|] eqn:Hw.
  { intros _. apply orb_true_intro. right.
    by apply includes_prefix, strip_prefix_prefix with r. }
  destruct (Js.strip_prefix "container" t) as [r|] eqn:Hc; [|done].
  intros _. apply orb_true_intro. left.
  by apply includes_prefix, strip_prefix_prefix with r.
Qed.

Lemma guard_scan_marker t :
  forall left, Re.guard_scan left t = true ->
               Js.includes t "container" || Js.includes t "wrapper" = true.
Proof.
  induction t as [|c t IH]; intros left H; cbn [Re.guard_scan] in H.
  - rewrite orb_false_r in H. apply andb_prop in H as [_ H]. by apply guard_word_marker.
  - apply orb_prop in H as [H|H].
    + apply andb_prop in H as [_ H]. by apply guard_word_marker.
    + apply IH in H. apply orb_prop in H as [H|H]; apply orb_true_intro;
        [left|right]; by apply includes_cons.
Qed.

(** X8. The container guard of [heuristicHeal] matches only texts that
    contain the word container or the word wrapper, in any letter case. *)
Theorem container_guard_needs_marker s :
  Re.container_guard s = true -> Re.container_or_wrapper s = true.
Proof. unfold Re.container_guard, Re.container_or_wrapper. apply guard_scan_marker. Qed.

Lemma container_guard_needs_marker_witness :
  Re.container_or_wrapper ("[data-testid=" +:+ Js.quoted "main-container" +:+ "]") = true.
Proof.
  apply (container_guard_needs_marker ("[data-testid=" +:+ Js.quoted "main-container" +:+ "]")).
  vm_compute. reflexivity.
Defined.

Lemma append_assoc_s a b c : (a +:+ b) +:+ c = a +:+ (b +:+ c).
Proof.
  induction a as [|x a IH]; [done|].
  change (String x a +:+ b) with (String x (a +:+ b)).
  change (String x (a +:+ b) +:+ c) with (String x ((a +:+ b) +:+ c)).
  by rewrite IH.
Qed.

Lemma toLowerCase_app a b :
  Js.toLowerCase (a +:+ b) = Js.toLowerCase a +:+ Js.toLowerCase b.
Proof.
  induction a as [|x a IH]; [done|].
  change (String x a +:+ b) with (String x (a +:+ b)). cbn [Js.toLowerCase].
  by rewrite IH.
Qed.

Lemma lower_char_quote c :
  Ascii.eqb "034" (Js.lower_char c) = Ascii.eqb "034" c.
Proof. destruct c as [[] [] [] [] [] [] [] []]; vm_compute; reflexivity. Qed.

Lemma toLowerCase_cssEscape s : Js.toLowerCase (cssEscape s) = cssEscape (Js.toLowerCase s).
Proof.
  induction s as [|c s IH]; [done|]. cbn [Js.toLowerCase].
  rewrite !cssEscape_cons, lower_char_quote.
  destruct (Ascii.eqb "034" c); cbn [Js.toLowerCase]; by rewrite IH.
Qed.

Lemma prefix_cssEscape w :
  forall y, Js.all_chars is_plain_char w = true ->
            String.prefix w (cssEscape y) = String.prefix w y.
Proof.
  induction w as [|c' w IH]; intros y Hw; [by destruct (cssEscape y), y|].
  cbn [Js.all_chars] in Hw. apply andb_prop in Hw as [Hc' Hw].
  unfold is_plain_char in Hc'. apply andb_prop in Hc' as [Hq Hb].
  apply negb_true_iff in Hq, Hb. apply Ascii.eqb_neq in Hq, Hb.
  destruct y as [|c y]; [done|]. rewrite cssEscape_cons.
  destruct (Ascii.eqb_spec "034" c) as [<-|Hc]; cbn [String.prefix].
  - destruct (ascii_dec c' "\"), (ascii_dec c' "034"); (congruence || done).
  - destruct (ascii_dec c' c); [auto|done].
Qed.

Lemma includes_cssEscape c' w y :
  Js.all_chars is_plain_char (String c' w) = true ->
  Js.includes (cssEscape y) (String c' w) = Js.includes y (String c' w).
Proof.
  intros Hw. induction y as [|c y IH]; [done|].
  pose proof (prefix_cssEscape _ (String c y) Hw) as Hp.
  rewrite cssEscape_cons in *.
  cbn [Js.all_chars] in Hw. apply andb_prop in Hw as [Hc' _].
  unfold is_plain_char in Hc'. apply andb_prop in Hc' as [Hq Hb].
  apply negb_true_iff in Hq, Hb. apply Ascii.eqb_neq in Hq, Hb.
  destruct (Ascii.eqb_spec "034" c) as [<-|Hc].
  - cbn [Js.includes String.prefix]. rewrite IH.
    destruct (ascii_dec c' "\"), (ascii_dec c' "034"); (congruence || done).
  - cbn [Js.includes]. by rewrite Hp, IH.
Qed.

Lemma includes_skip c' w lit :
  forall x, Js.all_chars (fun c => negb (Ascii.eqb c c')) lit = true ->
            Js.includes (lit +:+ x) (String c' w) = Js.includes x (String c' w).
Proof.
  induction lit as [|c lit IH]; intros x Hlit; [done|].
  cbn [Js.all_chars] in Hlit. apply andb_prop in Hlit as [Hc Hlit].
  apply negb_true_iff, Ascii.eqb_neq in Hc.
  change (String c lit +:+ x) with (String c (lit +:+ x)).
  cbn [Js.includes String.prefix]. rewrite IH by done.
  destruct (ascii_dec c' c); (congruence || done).
Qed.

Lemma prefix_before_quote b w :
  forall a, Js.all_chars is_plain_char w = true ->
            String.prefix w (a +:+ String "034" b) = String.prefix w a.
Proof.
  induction w as [|c' w IH]; intros a Hw; [by destruct a|].
  cbn [Js.all_chars] in Hw. apply andb_prop in Hw as [Hc' Hw].
  unfold is_plain_char in Hc'. apply andb_prop in Hc' as [Hq _].
  apply negb_true_iff, Ascii.eqb_neq in Hq.
  destruct a as [|c a].
  - change (EmptyString +:+ String "034" b) with (String "034" b). cbn [String.prefix].
    destruct (ascii_dec c' "034"); congruence.
  - change (String c a +:+ String "034" b) with (String c (a +:+ String "034" b)).
    cbn [String.prefix]. destruct (ascii_dec c' c); [auto|done].
Qed.

Lemma includes_before_quote c' w b a :
  Js.all_chars is_plain_char (String c' w) = true ->
  Js.includes (a +:+ String "034" b) (String c' w)
  = Js.includes a (String c' w) || Js.includes b (String c' w).
Proof.
  intros Hw. induction a as [|c a IH].
  - change (EmptyString +:+ String "034" b) with (String "034" b).
    cbn [Js.includes String.prefix Js.all_chars] in *.
    apply andb_prop in Hw as [Hc' _].
    unfold is_plain_char in Hc'. apply andb_prop in Hc' as [Hq _].
    apply negb_true_iff, Ascii.eqb_neq in Hq.
    destruct (ascii_dec c' "034"); (congruence || done).
  - pose proof (prefix_before_quote b _ (String c a) Hw) as Hp.
    change (String c a +:+ String "034" b) with (String c (a +:+ String "034" b)) in *.
    cbn [Js.includes]. rewrite Hp, IH. by rewrite orb_assoc.
Qed.

(** A marker-free attribute value gives a marker-free selector when it is
    put after a text [pre] without the letters c and w. *)
Lemma marker_free_prefixed pre x :
  Js.all_chars (fun c => negb (Ascii.eqb c "c")) (Js.toLowerCase pre) = true ->
  Js.all_chars (fun c => negb (Ascii.eqb c "w")) (Js.toLowerCase pre) = true ->
  Re.container_or_wrapper x = false ->
  Re.container_or_wrapper (pre +:+ cssEscape x) = false.
Proof.
  unfold Re.container_or_wrapper. intros Hc Hw Hx.
  rewrite toLowerCase_app, toLowerCase_cssEscape.
  rewrite (includes_skip "c" _ (Js.toLowerCase pre)), (includes_skip "w" _ (Js.toLowerCase pre))
    by done.
  by rewrite !includes_cssEscape.
Qed.

(** The same with a double quote and a marker-free text [post] after it. *)
Lemma marker_free_quoted pre post x :
  Js.all_chars (fun c => negb (Ascii.eqb c "c")) (Js.toLowerCase pre) = true ->
  Js.all_chars (fun c => negb (Ascii.eqb c "w")) (Js.toLowerCase pre) = true ->
  Re.container_or_wrapper post = false ->
  Re.container_or_wrapper x = false ->
  Re.container_or_wrapper (pre +:+ cssEscape x +:+ String "034" post) = false.
Proof.
  unfold Re.container_or_wrapper. intros Hc Hw Hpost Hx.
  rewrite !toLowerCase_app, toLowerCase_cssEscape.
  change (Js.toLowerCase (String "034" post)) with (String "034" (Js.toLowerCase post)).
  rewrite (includes_skip "c" _ (Js.toLowerCase pre)), (includes_skip "w" _ (Js.toLowerCase pre))
    by done.
  rewrite !includes_before_quote, !includes_cssEscape by done.
  apply orb_false_elim in Hpost as [-> ->]. apply orb_false_elim in Hx as [-> ->]. done.
Qed.

Lemma guard_free_of_marker_free s :
  Re.container_or_wrapper s = false -> Re.container_guard s = false.
Proof.
  intros H. destruct (Re.container_guard s) eqn:Hg; [|done].
  apply guard_scan_marker in Hg. unfold Re.container_or_wrapper in H. congruence.
Qed.

(** X9. The container guard can reject only a selector synthesized from
    data-testid, name or aria-label, or the bare tag name: a selector
    synthesized from the id, the data-test or the first class never
    matches it. *)
Theorem guard_rejects_unscreened_only el :
  Re.container_guard (buildBestSelectorFor el) = true ->
  unscreened_selector el (buildBestSelectorFor el).
Proof.
  unfold buildBestSelectorFor, unscreened_selector.
  set (tag := if Js.truthy (el_name el) then el_name el else "div").
  destruct (Js.truthy (attr (el_attribs el) "id")
            && negb (Re.container_or_wrapper (attr (el_attribs el) "id"))) eqn:Hid.
  { apply andb_prop in Hid as [_ Hid%negb_true_iff].
    rewrite guard_free_of_marker_free; [done|]. by apply marker_free_prefixed. }
  destruct (Js.truthy (attr (el_attribs el) "data-test")
            && negb (Re.container_or_wrapper (attr (el_attribs el) "data-test"))) eqn:Hdt.
  { apply andb_prop in Hdt as [_ Hdt%negb_true_iff].
    rewrite guard_free_of_marker_free; [done|].
    unfold Js.quoted, Js.dq.
    change ("[data-test=" +:+ (String "034" EmptyString
               +:+ cssEscape (attr (el_attribs el) "data-test")
               +:+ String "034" EmptyString) +:+ "]")
      with (("[data-test=" +:+ String "034" EmptyString)
              +:+ (cssEscape (attr (el_attribs el) "data-test") +:+ String "034" EmptyString)
              +:+ "]").
    rewrite (append_assoc_s (cssEscape _)).
    by apply marker_free_quoted. }
  destruct (Js.truthy (attr (el_attribs el) "data-testid")); [auto|].
  destruct (Js.truthy (attr (el_attribs el) "name")); [auto|].
  destruct (Js.truthy (attr (el_attribs el) "aria-label")); [auto|].
  destruct (if Js.truthy (attr (el_attribs el) "class")
            then first_class (attr (el_attribs el) "class") else None) as [c|]; [|auto].
  destruct (Js.truthy c && negb (Re.container_or_wrapper c)) eqn:Hc; [|auto].
  apply andb_prop in Hc as [_ Hc%negb_true_iff].
  rewrite guard_free_of_marker_free; [done|]. by apply marker_free_prefixed.
Qed.

Lemma guard_rejects_unscreened_only_witness :
  unscreened_selector Samples.testid_button (buildBestSelectorFor Samples.testid_button).
Proof.
  apply (guard_rejects_unscreened_only Samples.testid_button).
  vm_compute. reflexivity.
Defined.

(** ** The answer of the remote service and the prompt *)

Lemma head_is_drop_while p s : Js.head_is p (Js.drop_while p s) = false.
Proof.
  induction s as [|c s IH]; cbn; [done|].
  destruct (p c) eqn:Hc; [done|]. cbn. exact Hc.
Qed.

Lemma head_is_drop_while_end p s :
  Js.head_is p s = false -> Js.head_is p (Js.drop_while_end p s) = false.
Proof.
  destruct s as [|c s]; cbn; [done|]. intros Hc. rewrite Hc. cbn. exact Hc.
Qed.

Lemma last_is_drop_while_end p s : last_is p (Js.drop_while_end p s) = false.
Proof.
  induction s as [|c s IH]; cbn; [done|].
  destruct (p c) eqn:Hc, (Js.is_empty (Js.drop_while_end p s)) eqn:He; cbn;
    rewrite ?He; done.
Qed.

Lemma split_char_fields sep s :
  Forall (fun f => Js.all_chars (fun c => negb (Ascii.eqb c sep)) f = true)
    (Js.split_char sep s).
Proof.
  induction s as [|c s IH]; cbn [Js.split_char]; [by repeat constructor|].
  destruct (Ascii.eqb c sep) eqn:Hc; [by constructor|].
  destruct (Js.split_char sep s) as [|f fs]; [by repeat constructor; cbn; rewrite Hc|].
  inversion IH; subst. constructor; [|done]. cbn. by rewrite Hc.
Qed.

(** X10. The cleaned answer is a single line that neither starts nor ends
    with a double quote. *)
Theorem clean_single_line_unquoted content :
  Js.all_chars (fun c => negb (Ascii.eqb c "010")) (clean content) = true
  /\ Js.head_is (Ascii.eqb "034") (clean content) = false
  /\ last_is (Ascii.eqb "034") (clean content) = false.
Proof.
  unfold clean, Js.strip. split; [|split].
  - apply all_chars_drop_while_end, all_chars_drop_while.
    apply all_chars_drop_while_end, all_chars_drop_while.
    unfold Js.trim. apply all_chars_drop_while_end, all_chars_drop_while.
    pose proof (split_char_fields "010" (Js.trim content)) as H. unfold Js.trim in H.
    destruct (Js.split_char "010" _) as [|f fs]; [done|].
    by inversion H; subst.
  - apply head_is_drop_while_end, head_is_drop_while.
  - apply last_is_drop_while_end.
Qed.




(** ** The remote stage *)

Lemma record_events_nil w : record_events [] w = w.
Proof. destruct w. unfold record_events. cbn. by rewrite app_nil_r. Qed.

Lemma doubling_succ d n : doubling d (S n) = d :: doubling (d * 2) n.
Proof.
  unfold doubling. cbn [seq map]. f_equal; [cbn; lia|].
  rewrite <- seq_shift, map_map. apply map_ext. intros i.
  replace (Z.of_nat (S i)) with (Z.succ (Z.of_nat i)) by lia.
  rewrite Z.pow_succ_r by lia. lia.
Qed.

Lemma doubling_nil d n : [] = doubling d n -> n = 0%nat.
Proof. intros H%(f_equal length). unfold doubling in H. by rewrite length_map, length_seq in H. Qed.

(** What one run of the loop does from attempt number [a], with [k]
    attempts to go up to [maxAIRetries], whatever the service answers. *)
Lemma aiHeal_loop_run dom failed html cfg key :
  forall k a d w out w',
    (k = 0%nat \/ Z.of_nat (a + k) = cfg_maxAIRetries cfg + 1) ->
    aiHeal_loop dom failed html cfg key (map Z.of_nat (seq a k)) d w = (out, w') ->
    exists es n r,
      w' = record_events es w
      /\ out = Returned r
      /\ (posts es <= k)%nat
      /\ (k <> 0%nat -> 1 <= posts es)%nat
      /\ sleeps es = doubling d n
      /\ (n < posts es \/ es = [])%nat
      /\ forall sel, r = Some sel ->
           usable dom sel = true
           /\ exists content,
               remote w (posts (trace w) + posts es - 1)%nat = Answer content
               /\ sel = clean content.
Proof.
  induction k as [|k IH]; intros a d w out w' Hk Hrun.
  - cbn in Hrun. unfold ret in Hrun. simplify_eq.
    exists [], 0%nat, None. rewrite record_events_nil.
    split; [done|]. split; [done|]. split; [cbn; lia|]. split; [done|]. split; [done|].
    split; [by right|done].
  - destruct Hk as [|Hk]; [done|].
    cbn [seq map aiHeal_loop] in Hrun. unfold bind at 1 in Hrun. unfold axios_post in Hrun.
    unfold bind at 1 in Hrun. unfold emit, ret in Hrun.
    set (r := request_of failed html cfg key) in *.
    assert (Hone : forall es, (posts ([Post r] ++ es) = 1 + posts es)%nat)
      by (intros; by rewrite posts_app).
    destruct (remote w (posts (trace w))) as [content|status] eqn:Hres.
    + destruct (Js.truthy (clean content) && isClickableSelector dom (clean content)) eqn:Hu.
      * simplify_eq. exists [Post r], 0%nat, (Some (clean content)).
        split; [done|]. split; [done|]. split; [cbn; lia|]. split; [cbn; lia|].
        split; [done|]. split; [left; cbn; lia|].
        intros sel [= <-]. split; [done|]. exists content. split; [|done].
        rewrite <- Hres. f_equal. cbn. lia.
      * destruct (Re.login_container (clean content)) eqn:Hm.
        -- simplify_eq. exists [Post r], 0%nat, None.
           split; [done|]. split; [done|]. split; [cbn; lia|]. split; [cbn; lia|].
           split; [done|]. split; [left; cbn; lia|done].
        -- rewrite record_event_events in Hrun.
           apply IH in Hrun as (es & n & res & -> & -> & Hposts & Hmin & Hsleeps & Hn & Hres');
             [|destruct k; [by left|right; lia]].
           exists ([Post r] ++ es), n, res. rewrite record_events_app, Hone.
           split; [done|]. split; [done|]. split; [lia|]. split; [lia|].
           rewrite sleeps_app. split; [done|].
           split; [left; destruct Hn as [Hn|Hn]; [lia|]|].
           { subst es. apply doubling_nil in Hsleeps. lia. }
           intros sel Hsel. destruct (Hres' sel Hsel) as (Hus & c & Hc & ->).
           split; [done|]. exists c. split; [|done].
           rewrite <- Hc. unfold record_events. cbn [remote trace].
           rewrite posts_app. change (posts [Post r]) with 1%nat. f_equal. lia.
    + destruct (is_429 status && (Z.of_nat a <? cfg_maxAIRetries cfg)) eqn:Hgo.
      * apply andb_prop in Hgo as [_ Hlt%Z.ltb_lt].
        unfold bind at 1 in Hrun. unfold console_warn, emit in Hrun.
        unfold bind at 1 in Hrun. unfold sleep, emit in Hrun.
        rewrite !record_event_events, !record_events_app in Hrun.
        apply IH in Hrun as (es & n & res & -> & -> & Hposts & Hmin & Hsleeps & Hn & Hres');
          [|right; lia].
        assert (1 <= posts es)%nat as Hge by (apply Hmin; lia).
        set (pre := [Post r; Warn (RateLimited d (Z.of_nat a) (cfg_maxAIRetries cfg)); Sleep d]).
        exists (pre ++ es), (S n), res.
        assert (posts (pre ++ es) = 1 + posts es)%nat as Hpre by (by rewrite posts_app).
        rewrite record_events_app, Hpre.
        split; [done|]. split; [done|]. split; [lia|]. split; [lia|].
        rewrite sleeps_app, Hsleeps, doubling_succ. split; [done|].
        split; [left; destruct Hn as [Hn|Hn]; [lia|subst es; cbn in Hge; lia]|].
        intros sel Hsel. destruct (Hres' sel Hsel) as (Hus & c & Hc & ->).
        split; [done|]. exists c. split; [|done].
        rewrite <- Hc. unfold record_events. cbn [remote trace].
        rewrite posts_app.
        match goal with
        | |- context [posts ([Post r] ++ ?l)] => change (posts ([Post r] ++ l)) with 1%nat
        end.
        f_equal. lia.
      * unfold bind, console_warn, emit, ret in Hrun. simplify_eq.
        exists [Post r; Warn AIHealingFailed], 0%nat, None.
        rewrite !record_event_events, record_events_app.
        split; [done|]. split; [done|]. split; [cbn; lia|]. split; [cbn; lia|].
        split; [done|]. split; [left; cbn; lia|done].
Qed.

Lemma aiHeal_run dom failed html cfg w out w' :
  aiHeal dom failed html cfg w = (out, w') ->
  exists es n r,
    w' = record_events es w
    /\ out = Returned r
    /\ (posts es <= Z.to_nat (cfg_maxAIRetries cfg))%nat
    /\ sleeps es = doubling (cfg_backoffMs cfg) n
    /\ (n < posts es \/ es = [])%nat
    /\ forall sel, r = Some sel ->
         usable dom sel = true
         /\ exists content,
             remote w (posts (trace w) + posts es - 1)%nat = Answer content
             /\ sel = clean content.
Proof.
  unfold aiHeal, bind, getenv, attempts_upto. intros Hrun.
  apply aiHeal_loop_run in Hrun as (es & n & r & H1 & H2 & H3 & _ & H);
    [|destruct (Z.to_nat (cfg_maxAIRetries cfg)) eqn:E; [by left|right; lia]].
  by exists es, n, r.
Qed.

(** X12. Whatever the service answers, one run of [aiHeal] returns
    without throwing, posts at most [maxAIRetries] requests (none when the
    limit is zero or less), and only adds events to the world: the cache
    file, the environment and the clock are as before. *)
Theorem aiHeal_bounded dom failed html cfg w out w' :
  aiHeal dom failed html cfg w = (out, w') ->
  exists es r,
    w' = record_events es w
    /\ out = Returned r
    /\ Z.of_nat (posts es) <= Z.max 0 (cfg_maxAIRetries cfg).
Proof.
  intros Hrun. apply aiHeal_run in Hrun as (es & n & r & -> & -> & Hposts & _).
  exists es, r. repeat split. lia.
Qed.


(** X14. A selector that [aiHeal] returns is not empty, is clickable in
    the snapshot, and is the cleaned content of the answer to the last
    request of the run. *)
Theorem aiHeal_result_usable dom failed html cfg w sel w' :
  aiHeal dom failed html cfg w = (Returned (Some sel), w') ->
  Js.truthy sel = true
  /\ isClickableSelector dom sel = true
  /\ exists content,
      remote w (posts (trace w') - 1)%nat = Answer content /\ sel = clean content.
Proof.
  intros Hrun. apply aiHeal_run in Hrun as (es & n & r & -> & [= <-] & _ & _ & _ & Hsel).
  destruct (Hsel sel eq_refl) as (Hus & content & Hc & ->).
  apply andb_prop in Hus as [? ?]. repeat split; try done.
  exists content. split; [|done]. rewrite <- Hc. f_equal.
  unfold record_events. cbn [trace]. by rewrite posts_app.
Qed.

(** X15. A retry limit of zero or less switches the remote stage off
    without a trace: no request, no event, the result is none. *)
Theorem aiHeal_no_attempts dom failed html cfg w :
  cfg_maxAIRetries cfg <= 0 ->
  aiHeal dom failed html cfg w = (Returned None, w).
Proof.
  intros Hmax. unfold aiHeal, bind, getenv, attempts_upto.
  by replace (Z.to_nat (cfg_maxAIRetries cfg)) with 0%nat by lia.
Qed.

Lemma aiHeal_bounded_witness :
  exists es r,
    snd (aiHeal ScenarioA.dom "#login-button-invalid" ScenarioA.html Worlds.three_tries
           Samples.third_time_lucky)
    = record_events es Samples.third_time_lucky
    /\ Returned (Some "#login-button") = Returned r
    /\ Z.of_nat (posts es) <= Z.max 0 (cfg_maxAIRetries Worlds.three_tries).
Proof.
  apply (aiHeal_bounded ScenarioA.dom "#login-button-invalid" ScenarioA.html
           Worlds.three_tries Samples.third_time_lucky).
  vm_compute. reflexivity.
Defined.


Lemma aiHeal_result_usable_witness :
  Js.truthy "#login-button" = true
  /\ isClickableSelector ScenarioA.dom "#login-button" = true
  /\ exists content,
      remote Samples.third_time_lucky
        (posts (trace (snd (aiHeal ScenarioA.dom "#login-button-invalid" ScenarioA.html
                              Worlds.three_tries Samples.third_time_lucky))) - 1)%nat
      = Answer content
      /\ "#login-button" = clean content.
Proof.
  apply (aiHeal_result_usable ScenarioA.dom "#login-button-invalid" ScenarioA.html
           Worlds.three_tries Samples.third_time_lucky).
  vm_compute. reflexivity.
Defined.

Lemma aiHeal_no_attempts_witness :
  aiHeal ScenarioA.dom "#login-button-invalid" ScenarioA.html Samples.no_tries
    Samples.third_time_lucky
  = (Returned None, Samples.third_time_lucky).
Proof.
  apply (aiHeal_no_attempts ScenarioA.dom "#login-button-invalid" ScenarioA.html
           Samples.no_tries Samples.third_time_lucky).
  cbn. lia.
Defined.

(** ** More on the cache *)

Lemma mapping_not_null d : mapping_file d <-> is_null d = false.
Proof.
  split.
  - by intros [[-> | [-> | [-> | ->]]] | [db ->]].
  - destruct d as [| |[|db| |]]; intros H; try discriminate H;
      first [right; by eexists | left; unfold degraded; tauto].
Qed.

Lemma getHealed_run broken w :
  is_null (disk w) = false ->
  getHealed broken w
  = (Returned (get_property (stored (disk w)) broken),
     record_events (read_diagnostics (disk w)) w).
Proof.
  unfold getHealed, bind, readFile.
  destruct (disk w) as [| |[|db| |]]; intros Hn; try discriminate Hn;
    cbn; rewrite ?record_events_nil; reflexivity.
Qed.

Lemma getHealed_null broken w :
  is_null (disk w) = true -> getHealed broken w = (Thrown, w).
Proof.
  unfold getHealed, bind, readFile.
  by destruct (disk w) as [| |[|db| |]].
Qed.

Lemma setHealed_run broken sel origin w :
  is_null (disk w) = false ->
  setHealed broken sel origin w = (Returned tt, after_setHealed broken sel origin w).
Proof.
  unfold setHealed, after_setHealed, written, new_entry, bind, readFile, now, writeFile, bind,
    fs_writeFileSync.
  destruct (disk w) as [| |[|db| |]] eqn:Hd, (disk_writable w) eqn:Hw;
    intros Hn; try discriminate Hn;
    cbn; rewrite ?Hw, ?Hd, ?record_events_nil; cbn; rewrite ?Hw, ?Hd; reflexivity.
Qed.

Lemma setHealed_null broken sel origin w :
  is_null (disk w) = true -> setHealed broken sel origin w = (Thrown, w).
Proof.
  unfold setHealed, bind, readFile, now.
  by destruct (disk w) as [| |[|db| |]].
Qed.

Lemma disk_after_setHealed broken sel origin w :
  disk (after_setHealed broken sel origin w)
  = if disk_writable w then Present (Json (written broken sel origin w)) else disk w.
Proof. unfold after_setHealed. by destruct (disk_writable w). Qed.

Lemma writable_after_setHealed broken sel origin w :
  disk_writable (after_setHealed broken sel origin w) = disk_writable w.
Proof. unfold after_setHealed. by destruct (disk_writable w) eqn:E. Qed.

Lemma clock_after_setHealed broken sel origin w :
  clock (after_setHealed broken sel origin w) = clock w.
Proof. unfold after_setHealed. by destruct (disk_writable w). Qed.

Lemma null_after_setHealed broken sel origin w :
  is_null (disk w) = false -> is_null (disk (after_setHealed broken sel origin w)) = false.
Proof. rewrite disk_after_setHealed. by destruct (disk_writable w). Qed.





(** X17. On a disk that accepts the write, [setHealed] over a missing,
    unreadable, blank or unparsable file, under a key other than
    [__proto__], leaves a well-formed file that holds the new entry and
    nothing else: what an unparsable file held is gone. *)
Theorem setHealed_replaces_degraded_file broken sel origin w :
  broken <> "__proto__" ->
  degraded (disk w) ->
  disk_writable w = true ->
  disk (snd (setHealed broken sel origin w))
  = Present (Json {[ broken := {| healed := sel; source := origin; ts := clock w |} ]}).
Proof.
  intros Hk Hd Hw.
  rewrite setHealed_run by (apply mapping_not_null; by left). cbn [snd].
  rewrite disk_after_setHealed, Hw. unfold written. rewrite set_property_insert by done.
  destruct Hd as [H|[H|[H|H]]]; rewrite H; reflexivity.
Qed.

Lemma setHealed_replaces_degraded_file_witness :
  disk (snd (setHealed "#a" "#b" ai (Worlds.with_disk (Present Malformed) true Worlds.fresh)))
  = Present (Json {[ "#a" := {| healed := "#b"; source := ai;
                                ts := clock (Worlds.with_disk (Present Malformed) true
                                               Worlds.fresh) |} ]}).
Proof.
  apply (setHealed_replaces_degraded_file "#a" "#b" ai
           (Worlds.with_disk (Present Malformed) true Worlds.fresh)).
  - vm_compute. discriminate.
  - right. right. right. reflexivity.
  - reflexivity.
Defined.

Lemma set_property_comm db k1 e1 k2 e2 :
  k1 <> k2 ->
  set_property (set_property db k1 e1) k2 e2 = set_property (set_property db k2 e2) k1 e1.
Proof.
  intros Hne. unfold set_property at 1 3.
  rewrite !set_property_ne by done. unfold set_property.
  destruct (db !! k1) as [x1|] eqn:H1, (db !! k2) as [x2|] eqn:H2;
    repeat match goal with
           | |- context [String.eqb ?k "__proto__"] => destruct (String.eqb k "__proto__")
           end;
    rewrite ?H1, ?H2; try done; by rewrite insert_insert_ne.
Qed.

(** X18. Writes under two different keys commute: after either order
    every key reads the same selector and origin. *)
Theorem setHealed_commutes broken1 sel1 origin1 broken2 sel2 origin2 w k :
  broken1 <> broken2 ->
  entry_core <$> stored (disk (snd (setHealed broken2 sel2 origin2
                                      (snd (setHealed broken1 sel1 origin1 w))))) !! k
  = entry_core <$> stored (disk (snd (setHealed broken1 sel1 origin1
                                        (snd (setHealed broken2 sel2 origin2 w))))) !! k.
Proof.
  intros Hne. destruct (is_null (disk w)) eqn:Hn.
  { rewrite !(setHealed_null _ _ _ w) by done. cbn [snd].
    by rewrite ?setHealed_null. }
  rewrite !(setHealed_run _ _ _ w) by done. cbn [snd].
  rewrite !setHealed_run by (by apply null_after_setHealed). cbn [snd].
  rewrite !disk_after_setHealed, !writable_after_setHealed.
  destruct (disk_writable w) eqn:Hw; [|done].
  unfold written, new_entry.
  rewrite !clock_after_setHealed, !disk_after_setHealed, Hw. cbn [stored].
  unfold written, new_entry. by rewrite set_property_comm.
Qed.

Lemma setHealed_commutes_witness :
  entry_core <$> stored (disk (snd (setHealed "#b" "#y" ai
                                      (snd (setHealed "#a" "#x" heuristic Worlds.warm))))) !! "#a"
  = entry_core <$> stored (disk (snd (setHealed "#a" "#x" heuristic
                                        (snd (setHealed "#b" "#y" ai Worlds.warm))))) !! "#a".
Proof.
  apply (setHealed_commutes "#a" "#x" heuristic "#b" "#y" ai Worlds.warm "#a"). done.
Defined.



(** ** More on the orchestrator *)

Lemma heuristic_stage_run dom failed w :
  is_null (disk w) = false ->
  heuristic_stage dom failed w
  = match collect dom candidate_selectors with
    | None => (Thrown, heuristic_started failed w)
    | Some _ =>
        match heuristic_proposal dom failed with
        | Some sel =>
            (Returned (Some sel),
             after_setHealed failed sel heuristic
               (record_event (Log (HeuristicFound sel)) (heuristic_started failed w)))
        | None => (Returned None, record_event (Log HeuristicNone) (heuristic_started failed w))
        end
    end.
Proof.
  intros Hn.
  unfold heuristic_stage, heuristic_proposal, heuristicHeal, heuristic_started, usable.
  unfold bind at 1. unfold console_log at 1, emit. unfold bind at 1.
  unfold bind at 1. unfold console_log at 1, emit.
  rewrite !record_event_events, record_events_app. cbn [app].
  destruct (collect dom candidate_selectors) as [c|]; [|reflexivity].
  unfold ret at 1.
  destruct (pick (extractTokens failed) c) as [sel|]; [|reflexivity].
  destruct (Js.truthy sel && isClickableSelector dom sel); [|reflexivity].
  unfold bind, console_log, emit, ret. by rewrite setHealed_run.
Qed.

Lemma ai_stage_run dom failed html cfg w :
  is_null (disk w) = false ->
  ai_stage dom failed html cfg w
  = match aiHeal dom failed html cfg (record_event (Log (FallingBackToAI failed)) w) with
    | (Returned (Some sel), w1) =>
        if usable dom sel
        then (Returned (Some sel),
              after_setHealed failed sel ai (record_event (Log (AIFound sel)) w1))
        else (Returned None, record_event (Warn AIFallbackFailed) w1)
    | (Returned None, w1) => (Returned None, record_event (Warn AIFallbackFailed) w1)
    | (Thrown, w1) => (Thrown, w1)
    end.
Proof.
  intros Hn.
  unfold ai_stage, usable. unfold bind at 1. unfold console_log at 1, emit. unfold bind at 1.
  destruct (aiHeal _ _ _ _ _) as [[[sel|]|] w1] eqn:Hai; try reflexivity.
  destruct (Js.truthy sel && isClickableSelector dom sel); [|reflexivity].
  apply aiHeal_run in Hai as (es & _ & _ & -> & _).
  unfold bind, console_log, emit, ret. by rewrite setHealed_run.
Qed.

Lemma healSelector_null load failed html opts w :
  is_null (disk w) = true -> healSelector load failed html opts w = (Thrown, w).
Proof.
  intros Hn. unfold healSelector.
  unfold bind at 1. unfold getenv at 1. unfold bind at 1. by rewrite getHealed_null.
Qed.

Lemma healSelector_run load failed html opts w :
  is_null (disk w) = false ->
  healSelector load failed html opts w
  = let dom := load html in
    let w1 := record_events (read_diagnostics (disk w)) w in
    match cached_selector dom (get_property (stored (disk w)) failed) with
    | Some sel => (Returned (Some sel), record_event (Log (UsingCached sel)) w1)
    | None =>
        match (if default true (preferHeuristic opts)
               then heuristic_stage dom failed w1 else (Returned None, w1)) with
        | (Thrown, w2) => (Thrown, w2)
        | (Returned (Some sel), w2) => (Returned (Some sel), w2)
        | (Returned None, w2) =>
            match (if ai_enabled opts w2
                   then ai_stage dom failed html (effective_config opts w) w2
                   else (Returned None, w2)) with
            | (Thrown, w3) => (Thrown, w3)
            | (Returned (Some sel), w3) => (Returned (Some sel), w3)
            | (Returned None, w3) =>
                (Returned None, record_event (Warn (FailedToHeal failed)) w3)
            end
        end
    end.
Proof.
  intros Hn. unfold healSelector, ai_enabled, effective_config.
  unfold bind at 1. unfold getenv at 1. unfold bind at 1. rewrite getHealed_run by done.
  cbn zeta.
  destruct (cached_selector (load html) (get_property (stored (disk w)) failed)) as [sel|];
    [reflexivity|].
  unfold bind at 1.
  destruct (default true (preferHeuristic opts)).
  - destruct (heuristic_stage _ _ _) as [[[sel|]|] w2]; try reflexivity.
    unfold bind at 1. unfold getenv at 1. unfold bind at 1.
    destruct (default true (allowAI opts) && truthy_opt (env w2 !! "OPENAI_API_KEY")).
    + by destruct (ai_stage _ _ _ _ _) as [[[sel|]|] w3].
    + reflexivity.
  - unfold ret at 1. unfold bind at 1. unfold getenv at 1. unfold bind at 1.
    destruct (default true (allowAI opts) && truthy_opt (env _ !! "OPENAI_API_KEY")).
    + by destruct (ai_stage _ _ _ _ _) as [[[sel|]|] w3].
    + reflexivity.
Qed.

Lemma same_setting_refl w : same_setting w w.
Proof. by repeat split. Qed.

Lemma same_setting_trans w1 w2 w3 :
  same_setting w1 w2 -> same_setting w2 w3 -> same_setting w1 w3.
Proof. unfold same_setting. intros (?&?&?&?) (?&?&?&?). repeat split; congruence. Qed.

Lemma same_setting_events es w : same_setting w (record_events es w).
Proof. by repeat split. Qed.

Lemma same_setting_setHealed broken sel origin w :
  same_setting w (after_setHealed broken sel origin w).
Proof.
  unfold after_setHealed. destruct (disk_writable w) eqn:Hw; repeat split; cbn; congruence.
Qed.

Lemma posts_after_setHealed broken sel origin w :
  posts (trace (after_setHealed broken sel origin w)) = posts (trace w).
Proof.
  unfold after_setHealed, record_event, record_events, Worlds.with_disk.
  destruct (disk_writable w), (disk w) as [| |[| | |]]; cbn; unfold posts;
    rewrite !List.filter_app, !length_app; cbn; lia.
Qed.

Lemma written_same failed sel origin w w' :
  disk w' = disk w -> clock w' = clock w ->
  written failed sel origin w' = written failed sel origin w.
Proof. unfold written, new_entry. by intros -> ->. Qed.

Lemma posts_record_events es w :
  posts (trace (record_events es w)) = (posts (trace w) + posts es)%nat.
Proof. cbn [record_events trace]. by rewrite posts_app. Qed.

Lemma posts_record_event e w :
  posts (trace (record_event e w)) = (posts (trace w) + posts [e])%nat.
Proof. cbn [record_event trace]. by rewrite posts_app. Qed.

Lemma disk_after_write_same failed sel origin w w' :
  same_setting w w' -> disk w' = disk w ->
  disk_after_write failed sel origin w' = disk_after_write failed sel origin w.
Proof.
  intros (_ & Hc & _ & Hw) Hd. unfold disk_after_write.
  by rewrite Hw, Hd, (written_same _ _ _ w w').
Qed.

(** What the heuristic stage leaves behind. *)
Lemma heuristic_stage_facts dom failed w h w2 :
  is_null (disk w) = false ->
  heuristic_stage dom failed w = (h, w2) ->
  same_setting w w2
  /\ posts (trace w2) = posts (trace w)
  /\ match h with
     | Returned (Some sel) =>
         heuristic_proposal dom failed = Some sel
         /\ disk w2 = disk_after_write failed sel heuristic w
     | Returned None => collect dom candidate_selectors <> None /\ disk w2 = disk w
     | Thrown => collect dom candidate_selectors = None /\ disk w2 = disk w
     end.
Proof.
  intros Hn. rewrite heuristic_stage_run by done. unfold heuristic_started.
  destruct (collect dom candidate_selectors) as [c|].
  - destruct (heuristic_proposal dom failed) as [sel|]; intros [= <- <-].
    + split; [|split; [|split; [done|]]].
      * eapply same_setting_trans; [|apply same_setting_setHealed].
        rewrite record_event_events, record_events_app. apply same_setting_events.
      * rewrite posts_after_setHealed, !posts_record_event, posts_record_events.
        cbn. lia.
      * rewrite disk_after_setHealed. unfold disk_after_write. cbn.
        by destruct (disk_writable w).
    + split; [|split; [|done]].
      * rewrite record_event_events, record_events_app. apply same_setting_events.
      * rewrite !posts_record_event, posts_record_events. cbn. lia.
  - intros [= <- <-]. split; [apply same_setting_events|]. split; [|done].
    rewrite posts_record_events. cbn. lia.
Qed.

(** What the remote stage leaves behind. *)
Lemma ai_stage_facts dom failed html cfg w a w3 :
  is_null (disk w) = false ->
  ai_stage dom failed html cfg w = (a, w3) ->
  same_setting w w3
  /\ (posts (trace w) <= posts (trace w3) <= posts (trace w) + Z.to_nat (cfg_maxAIRetries cfg))%nat
  /\ match a with
     | Returned (Some sel) =>
         usable dom sel = true /\ disk w3 = disk_after_write failed sel ai w
     | Returned None => disk w3 = disk w
     | Thrown => False
     end.
Proof.
  intros Hn. rewrite ai_stage_run by done.
  destruct (aiHeal _ _ _ _ _) as [out w1] eqn:Hai.
  apply aiHeal_run in Hai as (es & n & r & -> & -> & Hposts & _ & _ & Hsel).
  destruct r as [sel|].
  - destruct (Hsel sel eq_refl) as (Hus & _). rewrite Hus. intros [= <- <-].
    split; [|split; [|split; [done|]]].
    + eapply same_setting_trans; [|apply same_setting_setHealed].
      rewrite !record_event_events, !record_events_app. apply same_setting_events.
    + rewrite posts_after_setHealed, !posts_record_event, posts_record_events,
        posts_record_event. cbn. lia.
    + rewrite disk_after_setHealed. unfold disk_after_write. cbn.
      by destruct (disk_writable w).
  - intros [= <- <-]. split; [|split; [|done]].
    + rewrite !record_event_events, !record_events_app. apply same_setting_events.
    + rewrite posts_record_event, posts_record_events, posts_record_event. cbn. lia.
Qed.

Lemma ai_enabled_same opts w w' : same_setting w w' -> ai_enabled opts w' = ai_enabled opts w.
Proof. intros (He & _). unfold ai_enabled. by rewrite He. Qed.

Lemma cached_selector_Some dom fromCache sel :
  cached_selector dom fromCache = Some sel ->
  exists e, fromCache = Some (Own e) /\ healed e = sel /\ isClickableSelector dom sel = true.
Proof.
  unfold cached_selector. destruct fromCache as [[e|name]|]; try done.
  destruct (isClickableSelector dom (healed e)) eqn:Hc; [|done].
  intros [= <-]. eauto.
Qed.

Lemma get_property_Own db k e : get_property db k = Some (Own e) -> db !! k = Some e.
Proof.
  unfold get_property. destruct (db !! k); [by intros [= ->]|].
  by destruct (in_object_prototype k).
Qed.

Lemma heuristic_proposal_usable dom failed sel :
  heuristic_proposal dom failed = Some sel -> usable dom sel = true.
Proof.
  unfold heuristic_proposal. repeat case_match; try done. by intros [= <-].
Qed.

(** What one healing call leaves behind. *)
Lemma healSelector_facts load failed html opts w out w' :
  healSelector load failed html opts w = (out, w') ->
  same_setting w w'
  /\ (posts (trace w) <= posts (trace w')
      <= posts (trace w)
         + (if ai_enabled opts w then Z.to_nat (default 6%Z (maxAIRetries opts)) else 0))%nat
  /\ match out with
     | Returned (Some sel) =>
         isClickableSelector (load html) sel = true
         /\ ((exists e, stored (disk w) !! failed = Some e /\ healed e = sel /\ disk w' = disk w)
             \/ exists origin, (origin = heuristic \/ origin = ai)
                               /\ disk w' = disk_after_write failed sel origin w)
     | _ => disk w' = disk w
     end.
Proof.
  destruct (is_null (disk w)) eqn:Hn.
  { rewrite healSelector_null by done. intros [= <- <-].
    split; [apply same_setting_refl|]. split; [lia|done]. }
  rewrite healSelector_run by done. cbn zeta.
  set (w1 := record_events (read_diagnostics (disk w)) w).
  assert (H1 : same_setting w w1) by apply same_setting_events.
  assert (Hp1 : posts (trace w1) = posts (trace w)).
  { unfold w1. rewrite posts_record_events.
    destruct (disk w) as [| |[| | |]]; cbn; lia. }
  assert (Hd1 : disk w1 = disk w) by done.
  assert (Hn1 : is_null (disk w1) = false) by done.
  assert (Hw1 : forall sel origin,
             disk_after_write failed sel origin w1 = disk_after_write failed sel origin w).
  { intros. by apply disk_after_write_same. }
  destruct (cached_selector (load html) (get_property (stored (disk w)) failed))
    as [sel|] eqn:Hcache.
  { intros [= <- <-]. apply cached_selector_Some in Hcache as (e & He & Hh & Hc).
    apply get_property_Own in He.
    split; [|split; [|split; [done|left; eauto]]].
    - rewrite record_event_events. eapply same_setting_trans; [exact H1|apply same_setting_events].
    - rewrite posts_record_event, Hp1. cbn. lia. }
  destruct (if default true (preferHeuristic opts)
            then heuristic_stage (load html) failed w1 else (Returned None, w1))
    as [h w2] eqn:Hh.
  assert (Hhs : same_setting w1 w2 /\ posts (trace w2) = posts (trace w1)
                /\ match h with
                   | Returned (Some sel) =>
                       usable (load html) sel = true
                       /\ disk w2 = disk_after_write failed sel heuristic w1
                   | _ => disk w2 = disk w1
                   end).
  { destruct (default true (preferHeuristic opts)).
    - apply heuristic_stage_facts in Hh as (? & ? & Hm); [|done].
      split; [done|]. split; [done|].
      destruct h as [[sel|]|]; [|tauto|tauto].
      destruct Hm as [Hprop ?]. split; [|done]. by apply heuristic_proposal_usable in Hprop.
    - simplify_eq. split; [apply same_setting_refl|done]. }
  destruct Hhs as (H2 & Hp2 & Hm2).
  destruct h as [[sel|]|].
  - intros [= <- <-]. destruct Hm2 as [Hus Hd2].
    apply andb_prop in Hus as [_ Hc].
    split; [exact (same_setting_trans _ _ _ H1 H2)|]. split; [lia|]. split; [done|].
    right. exists heuristic. split; [by left|]. by rewrite Hd2, Hw1.
  - rewrite (ai_enabled_same opts w w2) by exact (same_setting_trans _ _ _ H1 H2).
    destruct (ai_enabled opts w).
    + destruct (ai_stage _ _ _ _ _) as [a w3] eqn:Ha.
      apply ai_stage_facts in Ha as (H3 & Hp3 & Hm3); [|by rewrite Hm2].
      cbn [effective_config cfg_maxAIRetries] in Hp3.
      assert (H13 : same_setting w w3)
        by exact (same_setting_trans _ _ _ (same_setting_trans _ _ _ H1 H2) H3).
      destruct a as [[sel|]|]; [| |done].
      * intros [= <- <-]. destruct Hm3 as [Hus Hd3].
        apply andb_prop in Hus as [_ Hc].
        split; [done|]. split; [lia|]. split; [done|].
        right. exists ai. split; [by right|]. rewrite Hd3.
        apply disk_after_write_same; [exact (same_setting_trans _ _ _ H1 H2)|congruence].
      * intros [= <- <-].
        split; [rewrite record_event_events; eapply same_setting_trans;
                [exact H13|apply same_setting_events]|].
        split; [rewrite posts_record_event; cbn; lia|]. cbn. congruence.
    + intros [= <- <-].
      split; [rewrite record_event_events; eapply same_setting_trans;
              [eapply same_setting_trans; [exact H1|exact H2]|apply same_setting_events]|].
      split; [rewrite posts_record_event; cbn; lia|]. cbn. congruence.
  - intros [= <- <-]. split; [exact (same_setting_trans _ _ _ H1 H2)|]. split; [lia|].
    congruence.
Qed.

(** X20. One call of [healSelector] posts at most [maxAIRetries] requests
    (six when the option is absent), and none at all when [allowAI] is false
    or [OPENAI_API_KEY] is unset or empty; it never changes the environment,
    the clock or the remote service. *)
Theorem healSelector_request_budget load failed html opts w :
  let w' := snd (healSelector load failed html opts w) in
  same_setting w w'
  /\ (posts (trace w) <= posts (trace w')
      <= posts (trace w)
         + (if ai_enabled opts w then Z.to_nat (default 6%Z (maxAIRetries opts)) else 0))%nat.
Proof.
  cbn zeta. destruct (healSelector load failed html opts w) as [out w'] eqn:Hrun.
  apply healSelector_facts in Hrun as (Hs & Hp & _). by split.
Qed.







(** ** What the cache absorbs, and what it does not *)





(** X26. A file that parses to [null] makes every cache operation throw:
    [getHealed], [setHealed] and with them [healSelector] fail, whatever
    their arguments, without a diagnostic and without touching the
    file. *)
Theorem null_file_throws load failed html opts sel origin w :
  disk w = Present JsonNull ->
  getHealed failed w = (Thrown, w)
  /\ setHealed failed sel origin w = (Thrown, w)
  /\ healSelector load failed html opts w = (Thrown, w).
Proof.
  intros Hd.
  assert (Hn : is_null (disk w) = true) by (by rewrite Hd).
  split; [by apply getHealed_null|]. split; [by apply setHealed_null|].
  by apply healSelector_null.
Qed.

Lemma null_file_throws_witness :
  getHealed "#a" Worlds.null_file = (Thrown, Worlds.null_file)
  /\ setHealed "#a" "#b" ai Worlds.null_file = (Thrown, Worlds.null_file)
  /\ healSelector Worlds.load "#a" ScenarioA.html no_options Worlds.null_file
     = (Thrown, Worlds.null_file).
Proof.
  apply (null_file_throws Worlds.load "#a" ScenarioA.html no_options "#b" ai Worlds.null_file).
  reflexivity.
Defined.

(** X27. [setHealed] under the key [__proto__] stores nothing when the
    file has no entry of that name: on a disk that accepts the write the
    file afterwards holds the entries it held, no more, the log line
    counts those, and [getHealed] of the key returns the inherited
    prototype, not an entry. *)
Theorem proto_write_stores_nothing sel origin w :
  mapping_file (disk w) ->
  stored (disk w) !! "__proto__" = None ->
  disk_writable w = true ->
  exists w1 w2,
    setHealed "__proto__" sel origin w = (Returned tt, w1)
    /\ disk w1 = Present (Json (stored (disk w)))
    /\ trace w1 = trace w ++ read_diagnostics (disk w)
                  ++ [Log (CacheSaved (size (stored (disk w))))]
    /\ getHealed "__proto__" w1 = (Returned (Some (Inherited "__proto__")), w2).
Proof.
  intros Hm Hown Hw. apply mapping_not_null in Hm.
  rewrite setHealed_run by done. eexists _, _. split; [reflexivity|].
  assert (Hwr : written "__proto__" sel origin w = stored (disk w)).
  { unfold written, set_property. by rewrite Hown. }
  rewrite disk_after_setHealed, Hw, Hwr. split; [done|]. split.
  - unfold after_setHealed. rewrite Hw, Hwr. cbn. by rewrite <- app_assoc.
  - rewrite getHealed_run by (by apply null_after_setHealed).
    rewrite disk_after_setHealed, Hw, Hwr. cbn [stored].
    unfold get_property. by rewrite Hown.
Qed.

Lemma proto_write_stores_nothing_witness :
  exists w1 w2,
    setHealed "__proto__" "#login-button" ai Worlds.warm = (Returned tt, w1)
    /\ disk w1 = Present (Json (stored (disk Worlds.warm)))
    /\ trace w1 = trace Worlds.warm ++ read_diagnostics (disk Worlds.warm)
                  ++ [Log (CacheSaved (size (stored (disk Worlds.warm))))]
    /\ getHealed "__proto__" w1 = (Returned (Some (Inherited "__proto__")), w2).
Proof.
  apply (proto_write_stores_nothing "#login-button" ai Worlds.warm).
  - right. exists Worlds.remembered_db. reflexivity.
  - vm_compute. reflexivity.
  - reflexivity.
Defined.
